(** * Sena (Lumen): the chat orchestration core, embedded in Rocq

    The development follows the application source (the React component
    [App] with its service class [MistralService]):

    - data: [Message], [ToolCall], the mirror's rows, the completion
      request and response;
    - the platform ([Runtime]: JSON, URI encoding, trimming) and the
      environment ([World]: network, clock, the mirror's answers) are
      parameters, since the source only calls them;
    - component state is threaded explicitly ([App]); the [try] block of
      [handleSendMessage] runs in a state-and-exception monad [M];
    - [handleSendMessage] is given twice: as one function on the state,
      for a call that nothing interrupts, and cut at its awaits ([begin],
      [resume]) on a [Page] where renders, submissions and settled awaits
      come in any order; on a single call the two agree
      ([handleSendMessage_in_steps]);
    - a ghost [trace] records the store and network calls in the order
      the code issues them.

    Of the view, the filter of [ChatWindow] and the two renderers
    ([renderContent], [renderImagesAndText]) are modelled as functions
    from a text to the list of elements shown; the first version of the
    component (index.tsx) has a module of its own, [Legacy].

    Not modelled: markup and styling, the console, speech input, the
    visual preferences kept in localStorage, and failures of
    [localStorage.setItem] itself. *)

From Stdlib Require Import ZArith Ascii Sorted Permutation.
From stdpp Require Import base option list strings gmap.

Local Open Scope Z_scope.

(** ** Data model *)

(** [role: 'user' | 'assistant' | 'system' | 'tool'] *)
Inductive Role := user | assistant | system | tool.

#[global] Instance Role_eq_dec : EqDecision Role.
Proof. solve_decision. Defined.

(** [ToolCall.function]: the capability name and its argument payload,
    a JSON text that nobody has parsed yet. *)
Record FunctionCall := {
  fn_name : string;
  fn_arguments : string;
}.

(** [interface ToolCall]; its [type] field is the constant ['function']. *)
Record ToolCall := {
  tc_id : string;
  tc_function : FunctionCall;
}.

(** [interface Message]; the three optional fields are [None] when the
    JavaScript object has them [undefined]. *)
Record Message := {
  role : Role;
  content : string;
  tool_calls : option (list ToolCall);
  tool_call_id : option string;
  name : option string;
}.

(** [type ConversationMode = 'Explicativo' | 'Profissional' | 'Descontraído'] *)
Inductive ConversationMode := Explicativo | Profissional | Descontraido.

(** A thrown JavaScript error, as far as the code looks at it:
    [error.message]. *)
Record Exn := Error { message : string }.

(** A computation that returns or throws. *)
Definition Exc (A : Type) : Type := Exn + A.

#[global] Instance Exc_ret : MRet Exc := fun A x => inr x.
#[global] Instance Exc_bind : MBind Exc := fun A B f m =>
  match m with
  | inl e => inl e
  | inr x => f x
  end.

(** ** The platform *)

(** The JavaScript built-ins the code calls. [JSValue] is whatever
    [JSON.parse] returns for a tool call's argument payload; the code reads
    a property of it, interpolates it in a template and URI-encodes it. *)
Class Runtime := {
  JSValue : Type;
  (** [JSON.parse(text)] on an argument payload: a value or a SyntaxError *)
  JSON_parse : string -> Exc JSValue;
  (** [value.prop]: throws a TypeError on [null] *)
  get_property : JSValue -> string -> Exc JSValue;
  (** the text a template literal interpolates for a value *)
  to_text : JSValue -> string;
  (** [encodeURIComponent(value)]: throws a URIError on a lone surrogate *)
  encodeURIComponent : JSValue -> Exc string;
  (** [s.trim()] *)
  trim : string -> string;
  (** [JSON.stringify(updated)] and [JSON.parse(saved)] on the local record *)
  stringify_messages : list Message -> string;
  parse_messages : string -> Exc (list Message);
  (** [JSON.stringify(m.tool_calls)] and [JSON.parse(d.tool_calls)] *)
  stringify_tool_calls : list ToolCall -> string;
  parse_tool_calls : string -> Exc (list ToolCall);
  (** the TypeError of reading the given property of [undefined] *)
  undefined_property : string -> Exn;
  (** the TypeError of reading the given property of [null] *)
  null_property : string -> Exn;
}.

(** ** The completion service's wire format *)

(** One capability schema of [MistralService.tools]. *)
Record ToolParameter := {
  param_name : string;
  param_type : string;
  param_description : string;
}.

Record ToolSchema := {
  schema_name : string;
  schema_description : string;
  schema_properties : list ToolParameter;
  schema_required : list string;
}.

(** The request [fetch] is called with. [temperature] is the decimal 0.7,
    kept as numerator and denominator. *)
Record Request := {
  url : string;
  authorization : string;
  model : string;
  req_messages : list Message;
  req_tools : list ToolSchema;
  tool_choice : string;
  temperature : Z * Z;
}.

(** [data.choices[i]] *)
Record Choice := { choice_message : Message }.

(** A value [response.json()] resolves to, other than [null], read at the
    two properties the code reads. [body_message] is [message] as the
    template literal of the error renders it, [None] when the property is
    absent; [body_choices] is [choices], [None] when it is absent. *)
Record Body := {
  body_message : option string;
  body_choices : option (list Choice);
}.

(** A [Response]: [json] is the outcome of [await response.json()]. It
    rejects when the body is not JSON; it resolves to [None] when the
    body is the JSON text [null], which has no properties to read. *)
Record Response := {
  status : Z;
  statusText : string;
  json : Exc (option Body);
}.

(** [response.ok]: the status is in the range 200-299. *)
Definition ok (r : Response) : bool :=
  (200 <=? status r) && (status r <=? 299).

(** ** The remote mirror (table [messages]) *)

(** The [tool_calls] column as [loadChatHistory] may find it: SQL null,
    a text, or an already decoded JSON column. *)
Inductive ToolCallsColumn :=
| ColumnNull
| ColumnText (text : string)
| ColumnJson (calls : list ToolCall).

(** One row; [created_at] is the instant in milliseconds, the resolution
    of [new Date().toISOString()]. *)
Record Row := {
  row_role : Role;
  row_content : string;
  row_tool_calls : ToolCallsColumn;
  created_at : Z;
}.

(** What [await supabase.from('messages').select('*').order(...)] gives:
    the call may throw, or resolve to [{ data, error }]. *)
Inductive QueryOutcome :=
| QueryThrew (e : Exn)
| QueryResult (data : option (list Row)) (error : option string).

(** ** The environment *)

(** Everything the outside world decides. The n-th request and the n-th
    clock reading of a session are indexed from 0. *)
Record World := {
  (** [process.env.API_KEY] *)
  API_KEY : option string;
  (** the outcome of the n-th [fetch]: a rejection or a response *)
  fetch : nat -> Request -> Exc Response;
  (** the n-th reading of [new Date()], in milliseconds *)
  now : nat -> Z;
  (** the mirror's answer to the ordered select, given the table *)
  select_messages : list Row -> QueryOutcome;
  (** whether the mirror accepts an insert of the given records *)
  insert_accepted : list Row -> bool;
}.

(** ** Component state *)

(** Store and network calls, in the order the code issues them. [Append]
    marks one call of [saveMessageToHistory] with its batch. *)
Inductive Event :=
| Append (batch : list Message)
| LocalGet (key : string)
| LocalSet (key value : string)
| LocalRemove (key : string)
| RemoteSelect
| RemoteInsert (records : list Row)
| Fetch (request : Request).

(** The state of [App] that the orchestration reads or writes, the two
    stores, and two ghost fields: the number of clock readings so far and
    the trace. [supabase = None] is the unconfigured client ([null]). *)
Record App := {
  messages : list Message;
  isLoading : bool;
  showWelcome : bool;
  conversationMode : ConversationMode;
  isSettingsOpen : bool;
  localStorage : gmap string string;
  supabase : option (list Row);
  clock_reads : nat;
  trace : list Event;
}.

Definition setMessages (l : list Message) (st : App) : App :=
  {| messages := l; isLoading := isLoading st; showWelcome := showWelcome st;
     conversationMode := conversationMode st; isSettingsOpen := isSettingsOpen st;
     localStorage := localStorage st; supabase := supabase st;
     clock_reads := clock_reads st; trace := trace st |}.

Definition setIsLoading (b : bool) (st : App) : App :=
  {| messages := messages st; isLoading := b; showWelcome := showWelcome st;
     conversationMode := conversationMode st; isSettingsOpen := isSettingsOpen st;
     localStorage := localStorage st; supabase := supabase st;
     clock_reads := clock_reads st; trace := trace st |}.

Definition setShowWelcome (b : bool) (st : App) : App :=
  {| messages := messages st; isLoading := isLoading st; showWelcome := b;
     conversationMode := conversationMode st; isSettingsOpen := isSettingsOpen st;
     localStorage := localStorage st; supabase := supabase st;
     clock_reads := clock_reads st; trace := trace st |}.

Definition setIsSettingsOpen (b : bool) (st : App) : App :=
  {| messages := messages st; isLoading := isLoading st; showWelcome := showWelcome st;
     conversationMode := conversationMode st; isSettingsOpen := b;
     localStorage := localStorage st; supabase := supabase st;
     clock_reads := clock_reads st; trace := trace st |}.

Definition setLocalStorage (ls : gmap string string) (st : App) : App :=
  {| messages := messages st; isLoading := isLoading st; showWelcome := showWelcome st;
     conversationMode := conversationMode st; isSettingsOpen := isSettingsOpen st;
     localStorage := ls; supabase := supabase st;
     clock_reads := clock_reads st; trace := trace st |}.

Definition setSupabase (sb : option (list Row)) (st : App) : App :=
  {| messages := messages st; isLoading := isLoading st; showWelcome := showWelcome st;
     conversationMode := conversationMode st; isSettingsOpen := isSettingsOpen st;
     localStorage := localStorage st; supabase := sb;
     clock_reads := clock_reads st; trace := trace st |}.

Definition setClockReads (n : nat) (st : App) : App :=
  {| messages := messages st; isLoading := isLoading st; showWelcome := showWelcome st;
     conversationMode := conversationMode st; isSettingsOpen := isSettingsOpen st;
     localStorage := localStorage st; supabase := supabase st;
     clock_reads := n; trace := trace st |}.

(** Record one more event at the end of the trace. *)
Definition emit (ev : Event) (st : App) : App :=
  {| messages := messages st; isLoading := isLoading st; showWelcome := showWelcome st;
     conversationMode := conversationMode st; isSettingsOpen := isSettingsOpen st;
     localStorage := localStorage st; supabase := supabase st;
     clock_reads := clock_reads st; trace := trace st ++ [ev] |}.

(** The batches appended and the requests issued along a trace. *)
Fixpoint appends (tr : list Event) : list (list Message) :=
  match tr with
  | [] => []
  | Append batch :: tr' => batch :: appends tr'
  | _ :: tr' => appends tr'
  end.

Fixpoint fetches (tr : list Event) : list Request :=
  match tr with
  | [] => []
  | Fetch request :: tr' => request :: fetches tr'
  | _ :: tr' => fetches tr'
  end.

(** Reads of the given key of localStorage along a trace. *)
Fixpoint local_reads (key : string) (tr : list Event) : nat :=
  match tr with
  | [] => 0%nat
  | LocalGet k :: tr' =>
      if String.eqb k key then S (local_reads key tr') else local_reads key tr'
  | _ :: tr' => local_reads key tr'
  end.

(** ** The monad of the [try] blocks: state and exceptions *)

Definition M (A : Type) : Type := App -> Exc A * App.

#[global] Instance M_ret : MRet M := fun A x st => (inr x, st).
#[global] Instance M_bind : MBind M := fun A B f m st =>
  match m st with
  | (inl e, st') => (inl e, st')
  | (inr x, st') => f x st'
  end.

(** [throw e] *)
Definition throw {A : Type} (e : Exn) : M A := fun st => (inl e, st).

(** Run a pure step that may throw. *)
Definition liftExc {A : Type} (r : Exc A) : M A := fun st => (r, st).

(** Run a state change that cannot throw. *)
Definition perform (f : App -> App) : M unit := fun st => (inr tt, f st).

(** ** MistralService *)

Module MistralService.

(** [API_URL] *)
Definition API_URL : string := "https://api.mistral.ai/v1/chat/completions".

(** [tools]: the two declared capabilities. *)
Definition tools : list ToolSchema :=
  [ {| schema_name := "generate_image";
       schema_description := "Gera uma imagem baseada em uma descrição visual detalhada (prompt). Use sempre que o usuário pedir para desenhar, criar imagem, ilustrar ou visualizar algo.";
       schema_properties :=
         [ {| param_name := "prompt"; param_type := "string";
              param_description := "A descrição visual detalhada da imagem, preferencialmente em inglês para melhor qualidade." |} ];
       schema_required := ["prompt"] |};
    {| schema_name := "web_search";
       schema_description := "Realiza uma busca simulada na web para obter informações atuais sobre tópicos que você não tem certeza ou notícias recentes.";
       schema_properties :=
         [ {| param_name := "query"; param_type := "string";
              param_description := "O termo de busca otimizado." |} ];
       schema_required := ["query"] |} ].

(** The text of [basePrompt] before and after the interpolated mode. *)
Definition basePrompt_head : string :=
  "Você é Sena, uma Inteligência Artificial Avançada da AmplaAI.
    
    DIRETRIZES DE SEGURANÇA E COMPORTAMENTO:
    1. Você deve priorizar a acessibilidade, clareza e empatia em todas as respostas.
    2. FORMATAÇÃO: Use Markdown para estruturar suas respostas.
       - Use títulos (##) para organizar tópicos.
       - Use listas (- ou 1.) para instruções passo a passo.
       - Use **negrito** para conceitos chave.
    3. CÓDIGO: Se o usuário pedir código, forneça SOMENTE código seguro, moderno e bem comentado. 
       - Envolva o código em blocos markdown triplos (```linguagem ... ```).
       - Explique o código brevemente após o bloco.
    4. MULTITAREFA: Você é capaz de analisar problemas complexos, sugerir cronogramas e organizar ideias.

    MODO ATUAL: ".

Definition basePrompt_tail : string :=
  "
    ".

(** [mode.toUpperCase()] on the three values of the type. *)
Definition toUpperCase (mode : ConversationMode) : string :=
  match mode with
  | Explicativo => "EXPLICATIVO"
  | Profissional => "PROFISSIONAL"
  | Descontraido => "DESCONTRAÍDO"
  end.

(** [modeSpecifics[mode]] *)
Definition modeSpecifics (mode : ConversationMode) : string :=
  match mode with
  | Explicativo => "
      - Seu tom é paciente, didático e acolhedor.
      - Explique termos técnicos.
      - Ideal para idosos e leigos.
      - Se usar ferramentas, explique o que está fazendo."
  | Profissional => "
      - Seu tom é executivo, direto e focado em eficiência.
      - Ideal para programadores e ambiente corporativo.
      - Respostas concisas e tecnicamente densas."
  | Descontraido => "
      - Seu tom é leve, divertido e criativo.
      - Pode usar emojis e humor moderado.
      - Ideal para conversas casuais e brainstorming criativo."
  end.

(** [getSystemPrompt(mode)] *)
Definition getSystemPrompt (mode : ConversationMode) : string :=
  (basePrompt_head +:+ toUpperCase mode +:+ basePrompt_tail) +:+ modeSpecifics mode.

Section Service.
Context `{R : Runtime}.

(** The object [history.map(msg => ({ role, content, tool_calls,
    tool_call_id, name }))] builds for one message: the five fields and
    nothing else. No message is dropped, whatever its role. *)
Definition validMessage (msg : Message) : Message :=
  {| role := role msg; content := content msg; tool_calls := tool_calls msg;
     tool_call_id := tool_call_id msg; name := name msg |}.

(** [messagesPayload]: the composed system message, then the whole history. *)
Definition messagesPayload (history : list Message) (mode : ConversationMode)
  : list Message :=
  {| role := system; content := getSystemPrompt mode; tool_calls := None;
     tool_call_id := None; name := None |}
  :: map validMessage history.

(** The request [sendMessage] posts. *)
Definition request (history : list Message) (mode : ConversationMode)
    (apiKey : string) : Request :=
  {| url := API_URL;
     authorization := "Bearer " +:+ apiKey;
     model := "mistral-small-latest";
     req_messages := messagesPayload history mode;
     req_tools := tools;
     tool_choice := "auto";
     temperature := (7, 10) |}.

(** [err.message || response.statusText]: the empty text is falsy. *)
Definition message_or_statusText (err : Body) (response : Response) : string :=
  match body_message err with
  | Some m => if String.eqb m "" then statusText response else m
  | None => statusText response
  end.

(** What [sendMessage] does with the response once [fetch] has resolved. *)
Definition readResponse (response : Response) : Exc Message :=
  if negb (ok response) then
    if status response =? 401 then
      inl (Error "Chave de API inválida. Verifique suas configurações.")
    else
      err ← json response;
      match err with
      | None => inl (null_property "message")
      | Some err =>
          inl (Error ("Erro API Mistral: " +:+ message_or_statusText err response))
      end
  else
    data ← json response;
    match data with
    | None => inl (null_property "choices")
    | Some data =>
        match body_choices data with
        | None => inl (undefined_property "0")
        | Some [] => inl (undefined_property "message")
        | Some (choice :: _) => inr (choice_message choice)
        end
    end.

(** [sendMessage(history, mode, apiKey)]: one request, whose outcome the
    world decides; the [catch] of the source logs and rethrows, so an
    error leaves as it came. *)
Definition sendMessage (w : World) (history : list Message)
    (mode : ConversationMode) (apiKey : string) : M Message :=
  fun st =>
    let req := request history mode apiKey in
    let n := length (fetches (trace st)) in
    let st := emit (Fetch req) st in
    match fetch w n req with
    | inl e => (inl e, st)
    | inr response => (readResponse response, st)
    end.

End Service.

End MistralService.

(** ** The component [App] *)

Section Orchestration.
Context `{R : Runtime}.

(** The key of the local durable record. *)
Definition history_key : string := "sena-history".

(** [useState] defaults over the given stores: the state at mount. *)
Definition initialApp (ls : gmap string string) (sb : option (list Row)) : App :=
  {| messages := []; isLoading := false; showWelcome := true;
     conversationMode := Explicativo; isSettingsOpen := false;
     localStorage := ls; supabase := sb; clock_reads := 0; trace := [] |}.

(** [localStorage.setItem(key, value)] *)
Definition localStorage_setItem (key value : string) (st : App) : App :=
  setLocalStorage (<[key := value]> (localStorage st)) (emit (LocalSet key value) st).

(** [localStorage.removeItem(key)] *)
Definition localStorage_removeItem (key : string) (st : App) : App :=
  setLocalStorage (delete key (localStorage st)) (emit (LocalRemove key) st).

(** The mapper of [loadChatHistory] on one row. [d.tool_calls] is decoded
    when it is a non-empty text, kept when it is already decoded. The
    mirror has no column for [tool_call_id] or [name]. *)
Definition formatRow (d : Row) : Exc Message :=
  calls ← match row_tool_calls d with
          | ColumnNull => inr None
          | ColumnText text =>
              if String.eqb text "" then inr None
              else decoded ← parse_tool_calls text; inr (Some decoded)
          | ColumnJson decoded => inr (Some decoded)
          end;
  inr {| role := row_role d; content := row_content d; tool_calls := calls;
         tool_call_id := None; name := None |}.

(** [data.map(d => ...)]: the first row that fails to decode throws. *)
Fixpoint formatRows (data : list Row) : Exc (list Message) :=
  match data with
  | [] => inr []
  | d :: rest =>
      m ← formatRow d;
      ms ← formatRows rest;
      inr (m :: ms)
  end.

(** The block "Fallback LocalStorage" of [loadChatHistory]. *)
Definition loadLocal (st : App) : App :=
  let st := emit (LocalGet history_key) st in
  match localStorage st !! history_key with
  | Some saved =>
      if String.eqb saved "" then st
      else match parse_messages saved with
           | inr parsed => setShowWelcome false (setMessages parsed st)
           | inl _ => st
           end
  | None => st
  end.

(** [loadChatHistory()] *)
Definition loadChatHistory (w : World) (st : App) : App :=
  match supabase st with
  | Some table =>
      let st := emit RemoteSelect st in
      match select_messages w table with
      | QueryResult (Some (d :: ds)) None =>
          match formatRows (d :: ds) with
          | inr formatted => setShowWelcome false (setMessages formatted st)
          | inl _ => loadLocal st
          end
      | _ => loadLocal st
      end
  | None => loadLocal st
  end.

(** [newMessages.map(m => ({ ..., created_at: new Date().toISOString() }))]:
    the message at position [i] is stamped with clock reading [n + i]. *)
Fixpoint toRecords (w : World) (n : nat) (newMessages : list Message) : list Row :=
  match newMessages with
  | [] => []
  | m :: rest =>
      {| row_role := role m; row_content := content m;
         row_tool_calls := match tool_calls m with
                           | Some calls => ColumnText (stringify_tool_calls calls)
                           | None => ColumnNull
                           end;
         created_at := now w n |}
      :: toRecords w (S n) rest
  end.

(** The detached insert into the mirror: the table grows when the mirror
    accepts the records, and nothing else depends on the outcome. *)
Definition insertRecords (w : World) (table records : list Row) (st : App) : App :=
  let st := emit (RemoteInsert records) st in
  if insert_accepted w records then setSupabase (Some (table ++ records)) st else st.

(** [saveMessageToHistory(newMessages)] *)
Definition saveMessageToHistory (w : World) (newMessages : list Message)
    (st : App) : App :=
  let st := emit (Append newMessages) st in
  let updated := messages st ++ newMessages in
  let st := localStorage_setItem history_key (stringify_messages updated) st in
  let st := match supabase st with
            | Some table =>
                let records := toRecords w (clock_reads st) newMessages in
                let st := setClockReads (clock_reads st + length newMessages)%nat st in
                insertRecords w table records st
            | None => st
            end in
  setShowWelcome false (setMessages updated st).

(** A double quote, for the text of the search result. *)
Definition dquote : string := String (Ascii.ascii_of_nat 34) EmptyString.

(** The result text for an undeclared capability name. *)
Definition unknown_tool_result : string := "Ferramenta desconhecida.".

(** The body of the [for] loop up to the tool message it builds: the
    payload is parsed first, for every capability name. *)
Definition executeTool (toolCall : ToolCall) : Exc Message :=
  let functionName := fn_name (tc_function toolCall) in
  functionArgs ← JSON_parse (fn_arguments (tc_function toolCall));
  toolResult ←
    (if String.eqb functionName "generate_image" then
       prompt ← get_property functionArgs "prompt";
       encoded ← encodeURIComponent prompt;
       let imageUrl := "https://image.pollinations.ai/prompt/" +:+ encoded
                       +:+ "?width=1024&height=1024&nologo=true" in
       inr ("Imagem gerada com sucesso: ![" +:+ to_text prompt +:+ "]("
            +:+ imageUrl +:+ ")")
     else if String.eqb functionName "web_search" then
       query ← get_property functionArgs "query";
       inr ("Resultado da busca para " +:+ dquote +:+ to_text query +:+ dquote
            +:+ ": [Informação recuperada da base de conhecimento atualizada do modelo simulando acesso web]. Considere responder com fatos recentes sobre esse tópico.")
     else inr unknown_tool_result);
  inr {| role := tool; content := toolResult; tool_calls := None;
         tool_call_id := Some (tc_id toolCall); name := Some functionName |}.

(** [for (const toolCall of assistantResponse.tool_calls)]: each tool
    message is pushed on both lists; the first throw leaves the loop. *)
Fixpoint runTools (calls : list ToolCall)
    (toolUseHistory newMessagesToSave : list Message)
  : Exc (list Message * list Message) :=
  match calls with
  | [] => inr (toolUseHistory, newMessagesToSave)
  | toolCall :: rest =>
      toolMessage ← executeTool toolCall;
      runTools rest (toolUseHistory ++ [toolMessage])
                    (newMessagesToSave ++ [toolMessage])
  end.

(** [if (!process.env.API_KEY) throw ...] *)
Definition requireApiKey (w : World) : Exc string :=
  match API_KEY w with
  | Some key =>
      if String.eqb key "" then inl (Error "Chave API Mistral não encontrada.")
      else inr key
  | None => inl (Error "Chave API Mistral não encontrada.")
  end.

(** The [try] block of [handleSendMessage]. [messages0] is the log the
    handler closed over. *)
Definition tryBlock (w : World) (messages0 : list Message) (userMsg : Message)
    (mode : ConversationMode) : M unit :=
  apiKey ← liftExc (requireApiKey w);
  assistantResponse ←
    MistralService.sendMessage w (messages0 ++ [userMsg]) mode apiKey;
  match tool_calls assistantResponse with
  | Some (toolCall :: rest) =>
      lists ← liftExc (runTools (toolCall :: rest)
                         (messages0 ++ [userMsg; assistantResponse])
                         [assistantResponse]);
      finalResponse ← MistralService.sendMessage w (fst lists) mode apiKey;
      perform (saveMessageToHistory w (snd lists ++ [finalResponse]))
  | _ => perform (saveMessageToHistory w [assistantResponse])
  end.

(** The text the [catch] block shows: a warning sign, then the message. *)
Definition warning_marker : string := "⚠️ Desculpe, ocorreu um erro: ".

Definition errorMessage (error : Exn) : Message :=
  {| role := assistant; content := warning_marker +:+ message error;
     tool_calls := None; tool_call_id := None; name := None |}.

Definition userMessage (userInput : string) : Message :=
  {| role := user; content := userInput; tool_calls := None;
     tool_call_id := None; name := None |}.

(** The guard of [handleSendMessage]: [!userInput.trim() || isLoading]. *)
Definition rejected (userInput : string) (st : App) : bool :=
  String.eqb (trim userInput) "" || isLoading st.

(** [handleSendMessage(userInput)] *)
Definition handleSendMessage (w : World) (userInput : string) (st : App) : App :=
  if rejected userInput st then st
  else
    let userMsg := userMessage userInput in
    let st1 := setIsLoading true (saveMessageToHistory w [userMsg] st) in
    let (result, st2) := tryBlock w (messages st) userMsg (conversationMode st) st1 in
    let st3 := match result with
               | inr _ => st2
               | inl error => saveMessageToHistory w [errorMessage error] st2
               end in
    setIsLoading false st3.

(** *** The handler between its awaits

    [handleSendMessage] above runs one call from its guard to its
    [finally] with nothing in between. The source function is
    asynchronous: it gives way at each [await], and other calls of the
    handler may run before it goes on. What a call reads of the component
    ([isLoading], [messages], [conversationMode]) are the constants of the
    render that created the handler; what it writes ([setMessages] with an
    updater, [setIsLoading]) goes to the component's state. The
    definitions below are the same code, cut at its awaits. *)

(** What the handler created by one render closes over. *)
Record Closure := {
  seen_messages : list Message;
  seen_isLoading : bool;
  seen_conversationMode : ConversationMode;
}.

(** The handler of a render of the component in state [st]. *)
Definition render (st : App) : Closure :=
  {| seen_messages := messages st; seen_isLoading := isLoading st;
     seen_conversationMode := conversationMode st |}.

(** A call of the handler that waits at one of its awaits, with the
    locals it needs to go on:
    - [await saveMessageToHistory([userMsg])];
    - the first [await MistralService.sendMessage(...)], whose request was
      the [n]-th of the session;
    - the second one;
    - the [await saveMessageToHistory(...)] that ends the [try] block or
      the [catch] block, before [finally]. *)
Inductive Suspended :=
| AwaitUserSave (messages0 : list Message) (userMsg : Message)
    (mode : ConversationMode)
| AwaitFirstAnswer (messages0 : list Message) (userMsg : Message)
    (mode : ConversationMode) (apiKey : string) (n : nat)
| AwaitSecondAnswer (newMessagesToSave : list Message) (n : nat)
    (request : Request)
| AwaitLastSave.

(** What [sendMessage] makes of the outcome of the [n]-th request. *)
Definition answer (w : World) (n : nat) (request : Request) : Exc Message :=
  match fetch w n request with
  | inl e => inl e
  | inr response => MistralService.readResponse response
  end.

(** A call up to its first await: the guard, on the handler's own
    [isLoading], then the call of [saveMessageToHistory]. *)
Definition begin (w : World) (handler : Closure) (userInput : string) (st : App)
  : App * option Suspended :=
  if String.eqb (trim userInput) "" || seen_isLoading handler then (st, None)
  else
    let userMsg := userMessage userInput in
    (saveMessageToHistory w [userMsg] st,
     Some (AwaitUserSave (seen_messages handler) userMsg
             (seen_conversationMode handler))).

(** The [catch] block up to its await. *)
Definition caught (w : World) (error : Exn) (st : App) : App * option Suspended :=
  (saveMessageToHistory w [errorMessage error] st, Some AwaitLastSave).

(** A call from the await it waits at to the next one, or to its end. *)
Definition resume (w : World) (call : Suspended) (st : App)
  : App * option Suspended :=
  match call with
  | AwaitUserSave messages0 userMsg mode =>
      let st := setIsLoading true st in
      match requireApiKey w with
      | inl error => caught w error st
      | inr apiKey =>
          let request := MistralService.request (messages0 ++ [userMsg]) mode apiKey in
          (emit (Fetch request) st,
           Some (AwaitFirstAnswer messages0 userMsg mode apiKey
                   (length (fetches (trace st)))))
      end
  | AwaitFirstAnswer messages0 userMsg mode apiKey n =>
      match answer w n (MistralService.request (messages0 ++ [userMsg]) mode apiKey) with
      | inl error => caught w error st
      | inr assistantResponse =>
          match tool_calls assistantResponse with
          | Some (toolCall :: rest) =>
              match runTools (toolCall :: rest)
                      (messages0 ++ [userMsg; assistantResponse])
                      [assistantResponse] with
              | inl error => caught w error st
              | inr lists =>
                  let request := MistralService.request (fst lists) mode apiKey in
                  (emit (Fetch request) st,
                   Some (AwaitSecondAnswer (snd lists)
                           (length (fetches (trace st))) request))
              end
          | _ => (saveMessageToHistory w [assistantResponse] st, Some AwaitLastSave)
          end
      end
  | AwaitSecondAnswer newMessagesToSave n request =>
      match answer w n request with
      | inl error => caught w error st
      | inr finalResponse =>
          (saveMessageToHistory w (newMessagesToSave ++ [finalResponse]) st,
           Some AwaitLastSave)
      end
  | AwaitLastSave => (setIsLoading false st, None)
  end.

(** The page: the component's state, the handler that [ChatInput] holds
    as [onSendMessage] (that of the last render), and the calls made so
    far, [None] for one that has returned. *)
Record Page := {
  component : App;
  onSendMessage : Closure;
  pending : list (option Suspended);
}.

(** The page after the first render of the component in state [st]. *)
Definition mount (st : App) : Page :=
  {| component := st; onSendMessage := render st; pending := [] |}.

(** What can happen on the page: React renders the component again, the
    input is submitted, or the await of the [i]-th call settles. *)
Inductive Action :=
| Render
| Submit (userInput : string)
| Settle (i : nat).

Definition act (w : World) (page : Page) (action : Action) : Page :=
  match action with
  | Render =>
      {| component := component page; onSendMessage := render (component page);
         pending := pending page |}
  | Submit userInput =>
      let (st, call) := begin w (onSendMessage page) userInput (component page) in
      {| component := st; onSendMessage := onSendMessage page;
         pending := pending page ++ [call] |}
  | Settle i =>
      match pending page !! i with
      | Some (Some call) =>
          let (st, call') := resume w call (component page) in
          {| component := st; onSendMessage := onSendMessage page;
             pending := <[i := call']> (pending page) |}
      | _ => page
      end
  end.

Definition run (w : World) (actions : list Action) (page : Page) : Page :=
  fold_left (act w) actions page.


(** [handleClearChat()]; [confirmed] is the answer to [confirm(...)]. The
    branch on [supabase] has an empty body in the source. *)
Definition handleClearChat (confirmed : bool) (st : App) : App :=
  if confirmed then
    let st := setMessages [] st in
    let st := localStorage_removeItem history_key st in
    let st := setShowWelcome true st in
    setIsSettingsOpen false st
  else st.

End Orchestration.

(** ** A concrete platform

    One implementation of [Runtime], used to run the model on examples: a
    JSON reader and printer for the fragment without white space, numbers
    and booleans, with the two escapes of a quote and a backslash; URI
    encoding of bytes; trimming of ASCII white space. Where it is defined
    it agrees with the JavaScript built-ins; the theorems below hold for
    every [Runtime], not only for this one. *)

Module Sample.

Local Open Scope char_scope.

(** The values of the fragment, and [undefined] for an absent property. *)
#[local] Unset Elimination Schemes.
Inductive Value :=
| JNull
| JUndefined
| JString (s : string)
| JArray (items : list Value)
| JObject (fields : list (string * Value)).
#[local] Set Elimination Schemes.

Definition quote : ascii := Ascii.ascii_of_nat 34.
Definition backslash : ascii := Ascii.ascii_of_nat 92.

Definition needs_escape (c : ascii) : bool :=
  Ascii.eqb c quote || Ascii.eqb c backslash.

(** The text of a string literal after its opening quote, and the rest. *)
Fixpoint read_string (cs : string) : option (string * string) :=
  match cs with
  | EmptyString => None
  | String c rest =>
      if Ascii.eqb c quote then Some (EmptyString, rest)
      else if Ascii.eqb c backslash then
        match rest with
        | String c' rest' =>
            if needs_escape c' then
              match read_string rest' with
              | Some (s, r) => Some (String c' s, r)
              | None => None
              end
            else None
        | EmptyString => None
        end
      else
        match read_string rest with
        | Some (s, r) => Some (String c s, r)
        | None => None
        end
  end.

(** Recursive descent; [fuel] bounds the nesting and the number of
    members, and a text is never longer than the fuel it is read with. *)
Fixpoint parse_value (fuel : nat) (cs : string) : option (Value * string) :=
  match fuel with
  | O => None
  | S fuel' =>
      match cs with
      | String "n" (String "u" (String "l" (String "l" rest))) => Some (JNull, rest)
      | String "{" (String "}" rest) => Some (JObject [], rest)
      | String "[" (String "]" rest) => Some (JArray [], rest)
      | String "{" rest =>
          match parse_members fuel' rest with
          | Some (fields, r) => Some (JObject fields, r)
          | None => None
          end
      | String "[" rest =>
          match parse_items fuel' rest with
          | Some (items, r) => Some (JArray items, r)
          | None => None
          end
      | String c rest =>
          if Ascii.eqb c quote then
            match read_string rest with
            | Some (s, r) => Some (JString s, r)
            | None => None
            end
          else None
      | EmptyString => None
      end
  end
with parse_members (fuel : nat) (cs : string)
  : option (list (string * Value) * string) :=
  match fuel with
  | O => None
  | S fuel' =>
      match cs with
      | String c rest =>
          if Ascii.eqb c quote then
            match read_string rest with
            | Some (key, String ":" r1) =>
                match parse_value fuel' r1 with
                | Some (v, String "}" r2) => Some ([(key, v)], r2)
                | Some (v, String "," r2) =>
                    match parse_members fuel' r2 with
                    | Some (more, r3) => Some ((key, v) :: more, r3)
                    | None => None
                    end
                | _ => None
                end
            | _ => None
            end
          else None
      | EmptyString => None
      end
  end
with parse_items (fuel : nat) (cs : string) : option (list Value * string) :=
  match fuel with
  | O => None
  | S fuel' =>
      match parse_value fuel' cs with
      | Some (v, String "]" r) => Some ([v], r)
      | Some (v, String "," r) =>
          match parse_items fuel' r with
          | Some (more, r') => Some (v :: more, r')
          | None => None
          end
      | _ => None
      end
  end.

Definition syntax_error : Exn := Error "Unexpected token in JSON".

(** [JSON.parse] on the fragment: the whole text must be one value. *)
Definition parse (text : string) : Exc Value :=
  match parse_value (S (String.length text)) text with
  | Some (v, EmptyString) => inr v
  | _ => inl syntax_error
  end.

Fixpoint escape (s : string) : string :=
  match s with
  | EmptyString => EmptyString
  | String c rest =>
      if needs_escape c then String backslash (String c (escape rest))
      else String c (escape rest)
  end.

Definition print_string (s : string) : string :=
  String quote (escape s +:+ String quote EmptyString).

Fixpoint join (sep : string) (parts : list string) : string :=
  match parts with
  | [] => EmptyString
  | [p] => p
  | p :: rest => p +:+ sep +:+ join sep rest
  end.

(** [JSON.stringify] on the fragment; [undefined] prints as [null], as it
    does inside an array. *)
Fixpoint print (v : Value) : string :=
  match v with
  | JNull | JUndefined => "null"%string
  | JString s => print_string s
  | JArray items => ("[" +:+ join "," (map print items) +:+ "]")%string
  | JObject fields =>
      ("{" +:+ join "," (map (fun kv => print_string (fst kv) +:+ ":" +:+ print (snd kv)) fields)
       +:+ "}")%string
  end.

Fixpoint lookup_field (key : string) (fields : list (string * Value)) : Value :=
  match fields with
  | [] => JUndefined
  | (k, v) :: rest => if String.eqb k key then v else lookup_field key rest
  end.

(** [value.key] *)
Definition get (v : Value) (key : string) : Exc Value :=
  match v with
  | JNull =>
      inl (Error ("Cannot read properties of null (reading '" +:+ key +:+ "')"))
  | JUndefined =>
      inl (Error ("Cannot read properties of undefined (reading '" +:+ key +:+ "')"))
  | JObject fields => inr (lookup_field key fields)
  | _ => inr JUndefined
  end.

(** The text of a value in a template literal. *)
Definition text_of (v : Value) : string :=
  match v with
  | JNull => "null"%string
  | JUndefined => "undefined"%string
  | JString s => s
  | JArray items =>
      join "," (map (fun item => match item with
                                 | JString s => s
                                 | JObject _ => "[object Object]"%string
                                 | _ => EmptyString
                                 end) items)
  | JObject _ => "[object Object]"%string
  end.

Definition hex_digit (n : N) : ascii :=
  Ascii.ascii_of_N (if (n <? 10)%N then 48 + n else 55 + n)%N.

Definition unreserved (c : ascii) : bool :=
  let n := Ascii.N_of_ascii c in
  ((48 <=? n) && (n <=? 57) || (65 <=? n) && (n <=? 90)
   || (97 <=? n) && (n <=? 122))%N
  || existsb (Ascii.eqb c) ["-"; "_"; "."; "!"; "~"; "*"; "'"; "("; ")"].

(** Every byte outside the unreserved set becomes [%XX]; a text of bytes
    has no lone surrogate, so nothing throws. *)
Fixpoint encode (s : string) : string :=
  match s with
  | EmptyString => EmptyString
  | String c rest =>
      if unreserved c then String c (encode rest)
      else let n := Ascii.N_of_ascii c in
           String "%" (String (hex_digit (n / 16)) (String (hex_digit (n mod 16)%N)
             (encode rest)))
  end.

Definition is_space (c : ascii) : bool :=
  let n := Ascii.N_of_ascii c in ((9 <=? n) && (n <=? 13) || (n =? 32))%N.

Fixpoint trim_start (s : string) : string :=
  match s with
  | String c rest => if is_space c then trim_start rest else s
  | EmptyString => EmptyString
  end.

Definition trim_ascii (s : string) : string :=
  String.rev (trim_start (String.rev (trim_start s))).

Definition role_name (r : Role) : string :=
  match r with
  | user => "user" | assistant => "assistant" | system => "system" | tool => "tool"
  end.

Definition role_of_name (s : string) : option Role :=
  if String.eqb s "user" then Some user
  else if String.eqb s "assistant" then Some assistant
  else if String.eqb s "system" then Some system
  else if String.eqb s "tool" then Some tool
  else None.

Definition json_of_tool_call (c : ToolCall) : Value :=
  JObject [ ("id"%string, JString (tc_id c));
            ("type"%string, JString "function");
            ("function"%string,
             JObject [ ("name"%string, JString (fn_name (tc_function c)));
                       ("arguments"%string, JString (fn_arguments (tc_function c))) ]) ].

Definition optional_field (key : string) (o : option string) : list (string * Value) :=
  match o with
  | Some s => [(key, JString s)]
  | None => []
  end.

(** A property that is [undefined] is left out, as [JSON.stringify] does. *)
Definition json_of_message (m : Message) : Value :=
  JObject ([ ("role"%string, JString (role_name (role m)));
             ("content"%string, JString (content m)) ]
           ++ match tool_calls m with
              | Some calls => [("tool_calls"%string, JArray (map json_of_tool_call calls))]
              | None => []
              end
           ++ optional_field "tool_call_id" (tool_call_id m)
           ++ optional_field "name" (name m)).

Definition string_of_json (v : Value) : option string :=
  match v with
  | JString s => Some s
  | _ => None
  end.

Definition tool_call_of_json (v : Value) : option ToolCall :=
  match v with
  | JObject fields =>
      match lookup_field "id" fields, lookup_field "function" fields with
      | JString i, JObject fn =>
          match lookup_field "name" fn, lookup_field "arguments" fn with
          | JString n, JString a =>
              Some {| tc_id := i; tc_function := {| fn_name := n; fn_arguments := a |} |}
          | _, _ => None
          end
      | _, _ => None
      end
  | _ => None
  end.

Definition tool_calls_of_json (v : Value) : option (list ToolCall) :=
  match v with
  | JArray items => mapM tool_call_of_json items
  | _ => None
  end.

Definition message_of_json (v : Value) : option Message :=
  match v with
  | JObject fields =>
      match lookup_field "role" fields, lookup_field "content" fields with
      | JString r, JString c =>
          match role_of_name r with
          | Some r' =>
              match lookup_field "tool_calls" fields with
              | JUndefined =>
                  Some {| role := r'; content := c; tool_calls := None;
                          tool_call_id := string_of_json (lookup_field "tool_call_id" fields);
                          name := string_of_json (lookup_field "name" fields) |}
              | calls =>
                  match tool_calls_of_json calls with
                  | Some decoded =>
                      Some {| role := r'; content := c; tool_calls := Some decoded;
                              tool_call_id := string_of_json (lookup_field "tool_call_id" fields);
                              name := string_of_json (lookup_field "name" fields) |}
                  | None => None
                  end
              end
          | None => None
          end
      | _, _ => None
      end
  | _ => None
  end.

(** Read a text as a value of the expected shape; a text of another shape
    counts as unreadable here. *)
Definition parse_as {A : Type} (decode : Value -> option A) (text : string) : Exc A :=
  match parse text with
  | inr v => match decode v with
             | Some x => inr x
             | None => inl syntax_error
             end
  | inl e => inl e
  end.

#[global] Instance runtime : Runtime := {|
  JSValue := Value;
  JSON_parse := parse;
  get_property := get;
  to_text := text_of;
  encodeURIComponent := fun v => inr (encode (text_of v));
  trim := trim_ascii;
  stringify_messages := fun l => print (JArray (map json_of_message l));
  parse_messages := parse_as (fun v => match v with
                                       | JArray items => mapM message_of_json items
                                       | _ => None
                                       end);
  stringify_tool_calls := fun l => print (JArray (map json_of_tool_call l));
  parse_tool_calls := parse_as tool_calls_of_json;
  undefined_property := fun key =>
    Error ("Cannot read properties of undefined (reading '" +:+ key +:+ "')");
  null_property := fun key =>
    Error ("Cannot read properties of null (reading '" +:+ key +:+ "')");
|}.

End Sample.

(** ** More vocabulary *)

Section MoreVocabulary.
Context `{R : Runtime}.

(** A message as the mirror can give it back: the row has no column for
    [tool_call_id] or [name]. *)
Definition forget_links (m : Message) : Message :=
  {| role := role m; content := content m; tool_calls := tool_calls m;
     tool_call_id := None; name := None |}.

(** The batch an accepted pass appends after the user message, read off
    the try and catch blocks as a function of what they look at: the
    key, the service's answers to the requests numbered [n] and [n + 1],
    the log [messages0], the user message and the mode. *)
Definition pass_batch (w : World) (messages0 : list Message) (userMsg : Message)
    (mode : ConversationMode) (n : nat) : list Message :=
  match requireApiKey w with
  | inl e => [errorMessage e]
  | inr key =>
      match fetch w n (MistralService.request (messages0 ++ [userMsg]) mode key)
              ≫= MistralService.readResponse with
      | inl e => [errorMessage e]
      | inr a =>
          match tool_calls a with
          | Some (c :: cs) =>
              match runTools (c :: cs) (messages0 ++ [userMsg; a]) [a] with
              | inl e => [errorMessage e]
              | inr lists =>
                  match fetch w (S n) (MistralService.request (fst lists) mode key)
                          ≫= MistralService.readResponse with
                  | inl e => [errorMessage e]
                  | inr final => snd lists ++ [final]
                  end
              end
          | _ => [a]
          end
      end
  end.

(** Ascending and without ties. *)
Definition strictly_by_created_at (r1 r2 : Row) : Prop :=
  created_at r1 < created_at r2.

End MoreVocabulary.

(** ** The view: what [ChatWindow] shows *)

Section View.
Local Open Scope char_scope.

(** One element of the list [renderImagesAndText] builds: a text span or
    an image (the React keys and class names are left out). *)
Inductive Element :=
| Span (text : string)
| Image (alt src : string).

(** Does the character occur in the text? *)
Fixpoint has_char (c : ascii) (s : string) : bool :=
  match s with
  | EmptyString => false
  | String x rest => Ascii.eqb x c || has_char c rest
  end.

(** The text before the first occurrence of [c], and the text after it. *)
Fixpoint until (c : ascii) (s : string) : option (string * string) :=
  match s with
  | EmptyString => None
  | String x rest =>
      if Ascii.eqb x c then Some (EmptyString, rest)
      else match until c rest with
           | Some (before, after) => Some (String x before, after)
           | None => None
           end
  end.

(** The image expression of [renderImagesAndText] matched at the start
    of [s]: an exclamation mark; between square brackets, any run of
    characters other than a closing bracket (the alternative text);
    between parentheses, a non-empty run of characters other than a
    closing parenthesis (the source). The result is the alternative
    text, the source, and the text after the match. Each class excludes
    the delimiter that must follow it, so the greedy runs end at the
    first closing bracket and the first closing parenthesis, and giving
    characters back never helps. *)
Definition match_image (s : string) : option (string * string * string) :=
  match s with
  | String "!" (String "[" s1) =>
      match until "]" s1 with
      | Some (alt, String "(" s2) =>
          match until ")" s2 with
          | Some (src, rest) =>
              if String.eqb src "" then None else Some (alt, src, rest)
          | None => None
          end
      | _ => None
      end
  | _ => None
  end.

(** [imageRegex.exec] on the text from [lastIndex] on: the leftmost
    match, with the text before it and the text after it. *)
Fixpoint exec_image (s : string) : option (string * (string * string) * string) :=
  match match_image s with
  | Some (alt, src, rest) => Some (EmptyString, (alt, src), rest)
  | None =>
      match s with
      | EmptyString => None
      | String c s' =>
          match exec_image s' with
          | Some (before, image, rest) => Some (String c before, image, rest)
          | None => None
          end
      end
  end.

(** The [while] loop and the final [if] of [renderImagesAndText], on the
    text from [lastIndex] on. Each match is at least six characters long. *)
Fixpoint image_loop (fuel : nat) (rest : string) : list Element :=
  match fuel with
  | O => []
  | S fuel' =>
      match exec_image rest with
      | Some (before, (alt, src), after) =>
          (if String.eqb before "" then [] else [Span before])
          ++ Image alt src :: image_loop fuel' after
      | None => if String.eqb rest "" then [] else [Span rest]
      end
  end.

(** [renderImagesAndText(text)]; [None] is the [null] of an empty text. *)
Definition renderImagesAndText (text : string) : option (list Element) :=
  if String.eqb text "" then None
  else Some (image_loop (S (String.length text)) text).

(** The text an element was made from. *)
Definition source (e : Element) : string :=
  match e with
  | Span text => text
  | Image alt src => "![" +:+ alt +:+ "](" +:+ src +:+ ")"
  end.

Fixpoint sources (elements : list Element) : string :=
  match elements with
  | [] => EmptyString
  | e :: rest => source e +:+ sources rest
  end.

(** [messages.filter(msg => msg.role !== 'system' && msg.role !== 'tool')] *)
Definition displayed (log : list Message) : list Message :=
  filter (fun msg => role msg <> system /\ role msg <> tool) log.

(** *** Code blocks: [renderContent] *)

(** The three functions of highlight.js that [renderContent] calls;
    [highlight] throws for a language it cannot handle. *)
Record Highlighter := {
  getLanguage : string -> bool;
  highlight : string -> string -> Exc string;
  highlightAuto : string -> string;
}.

(** One element of the list [renderContent] builds: an element of
    [renderImagesAndText], or a code block with its language label and
    the highlighted markup. *)
Inductive Part :=
| Inline (e : Element)
| CodeBlock (lang highlighted : string).

(** The text before the first run of three backticks, and the text
    after that run. *)
Fixpoint until_fence (s : string) : option (string * string) :=
  match s with
  | String "`" (String "`" (String "`" rest)) => Some (EmptyString, rest)
  | String c rest =>
      match until_fence rest with
      | Some (before, after) => Some (String c before, after)
      | None => None
      end
  | EmptyString => None
  end.

(** A word character of a regular expression: a letter, a digit or an
    underscore. *)
Definition is_word (c : ascii) : bool :=
  let n := Ascii.N_of_ascii c in
  ((48 <=? n) && (n <=? 57) || (65 <=? n) && (n <=? 90)
   || (97 <=? n) && (n <=? 122) || (n =? 95))%N.

(** The longest run of word characters at the start, and the rest. *)
Fixpoint take_word (s : string) : string * string :=
  match s with
  | String c rest =>
      if is_word c then let (w, r) := take_word rest in (String c w, r)
      else (EmptyString, s)
  | EmptyString => (EmptyString, EmptyString)
  end.

(** Every character is a word character. *)
Fixpoint all_word (s : string) : bool :=
  match s with
  | EmptyString => true
  | String c rest => is_word c && all_word rest
  end.

(** The third byte of a white space character U+2000 to U+200A, U+2028,
    U+2029 or U+202F, after the bytes 226 and 128. *)
Definition is_space_tail (c : ascii) : bool :=
  let n := Ascii.N_of_ascii c in
  ((128 <=? n) && (n <=? 138) || (n =? 168) || (n =? 169) || (n =? 175))%N.

(** The text after the longest run of white space at the start, white
    space being what the class of that name matches in JavaScript: tab,
    line feed, vertical tab, form feed, carriage return, space, and, in
    their UTF-8 bytes, U+00A0, U+1680, U+2000 to U+200A, U+2028, U+2029,
    U+202F, U+205F, U+3000 and U+FEFF. *)
Fixpoint skip_spaces (s : string) : string :=
  match s with
  | String "009" r | String "010" r | String "011" r | String "012" r
  | String "013" r | String " " r => skip_spaces r
  | String "194" (String "160" r) => skip_spaces r
  | String "225" (String "154" (String "128" r)) => skip_spaces r
  | String "226" (String "128" (String c r)) =>
      if is_space_tail c then skip_spaces r else s
  | String "226" (String "129" (String "159" r)) => skip_spaces r
  | String "227" (String "128" (String "128" r)) => skip_spaces r
  | String "239" (String "187" (String "191" r)) => skip_spaces r
  | _ => s
  end.

(** [codeBlockRegex.exec] on the text from [lastIndex] on: three
    backticks, an optional word, white space, then as little as possible
    up to the next three backticks. The result is the text before the
    match, the word, the code, and the text after the match. A match
    starts at the first run of three backticks or nowhere: the word and
    the white space hold no backtick, so a closing run that the greedy
    attempt does not find is found by no other attempt, here or
    further right. *)
Definition exec_fence (s : string) : option (string * string * string * string) :=
  match until_fence s with
  | Some (before, opened) =>
      let (word, r) := take_word opened in
      match until_fence (skip_spaces r) with
      | Some (code, after) => Some (before, word, code, after)
      | None => None
      end
  | None => None
  end.

(** The [try] block around the highlighter: the named language when
    highlight.js knows it and does not throw, automatic detection
    otherwise. *)
Definition highlighted_code (hl : Highlighter) (lang code : string) : string :=
  if negb (String.eqb lang "") && getLanguage hl lang then
    match highlight hl code lang with
    | inr html => html
    | inl _ => highlightAuto hl code
    end
  else highlightAuto hl code.

(** [parts.push(...renderImagesAndText(text))] *)
Definition inline_parts (text : string) : list Part :=
  match renderImagesAndText text with
  | Some elements => map Inline elements
  | None => []
  end.

(** The [while] loop of [renderContent] and the text after the last
    match, on the content from [lastIndex] on. *)
Fixpoint fence_loop (hl : Highlighter) (fuel : nat) (rest : string) : list Part :=
  match fuel with
  | O => []
  | S fuel' =>
      match exec_fence rest with
      | Some (before, word, code, after) =>
          let lang := if String.eqb word "" then "plaintext"%string else word in
          (if String.eqb before "" then [] else inline_parts before)
          ++ CodeBlock lang (highlighted_code hl lang code)
          :: fence_loop hl fuel' after
      | None => if String.eqb rest "" then [] else inline_parts rest
      end
  end.

(** [renderContent(content)]; [None] is the empty text it returns for an
    empty content. *)
Definition renderContent (hl : Highlighter) (content : string) : option (list Part) :=
  if String.eqb content "" then None
  else Some (fence_loop hl (S (String.length content)) content).

(** Does the text hold a backtick? *)
Definition has_backtick (s : string) : bool := has_char "`" s.

(** One bubble of [ChatWindow]: the class that tells the user's bubbles
    from the assistant's, the label for screen readers, and the content. *)
Record Bubble := {
  bubble_class : string;
  bubble_label : string;
  bubble_parts : option (list Part);
}.

(** The bubbles of [ChatWindow], without the thinking indicator. *)
Definition chatWindow (hl : Highlighter) (log : list Message) : list Bubble :=
  map (fun msg =>
         {| bubble_class :=
              ("message-bubble " +:+ (if decide (role msg = user) then "user" else "sena"))%string;
            bubble_label :=
              if decide (role msg = user) then "Você disse:"%string else "Sena disse:"%string;
            bubble_parts := renderContent hl (content msg) |})
      (displayed log).

End View.

(** ** The first version of the component (index.tsx)

    The same conversation without tools and without stores: the log lives
    in the component only, messages have a role and a content, and every
    failure is answered with one fixed apology. *)

Module Legacy.

(** [interface Message] of this version, and the objects sent to the
    service, whose role may also be ['system']. *)
Record Turn := {
  turn_role : Role;
  turn_content : string;
}.

(** The request: no tools, no temperature. *)
Record Call := {
  call_url : string;
  call_authorization : string;
  call_model : string;
  call_messages : list Turn;
}.

(** The key as the template interpolates it, and the outcome of the n-th
    request. *)
Record Net := {
  key : option string;
  send : nat -> Call -> Exc Response;
}.

Record State := {
  log : list Turn;
  busy : bool;
  mode : ConversationMode;
  calls : list Call;
}.

(** [systemPrompts[mode]] *)
Definition systemPrompts (m : ConversationMode) : string :=
  match m with
  | Explicativo => "Você é Sena, uma assistente de IA desenvolvida pela AmplaAI e incubada pela Orpheo Studio. Sua personalidade é amável, calma e extremamente paciente. Seu objetivo é ajudar usuários, especialmente idosos (60+) e leigos em tecnologia. Use um tom acolhedor e jovial, mas sempre profissional. Explique conceitos complexos de forma simples e passo a passo. Adapte seu vocabulário para ser o mais claro e acessível possível."
  | Profissional => "Você é Sena, uma assistente de IA da AmplaAI. Seu modo de operação é profissional. Forneça respostas diretas, técnicas e precisas. Mantenha um tom formal e focado nos fatos."
  | Descontraido => "Você é Sena, uma IA da AmplaAI. Você é amigável e gosta de conversar. Use um tom leve, informal e um pouco divertido. Sinta-se à vontade para usar emojis quando apropriado para tornar a conversa mais agradável."
  end.

(** The message shown for every failure. *)
Definition apology : Turn :=
  {| turn_role := assistant;
     turn_content := "Desculpe, estou com um problema para me conectar. Por favor, tente novamente mais tarde." |}.

(** [apiMessages]: the system prompt, the log the handler closed over,
    the new message; each reduced to its role and content. *)
Definition apiMessages (st : State) (newUserMessage : Turn) : list Turn :=
  map (fun t => {| turn_role := turn_role t; turn_content := turn_content t |})
      ({| turn_role := system; turn_content := systemPrompts (mode st) |}
       :: log st ++ [newUserMessage]).

(** The body of the [try] block after [fetch] has resolved: the content
    of the first choice, when there is one and it is not empty. *)
Definition readAnswer `{Runtime} (response : Response) : Exc string :=
  if negb (ok response) then
    inl (Error ("Erro na API: " +:+ statusText response))
  else
    data ← json response;
    match data with
    | None => inl (null_property "choices")
    | Some data =>
        match body_choices data with
        | None => inl (undefined_property "0")
        | Some [] => inl (Error "Resposta da API vazia ou em formato inesperado.")
        | Some (choice :: _) =>
            if String.eqb (content (choice_message choice)) "" then
              inl (Error "Resposta da API vazia ou em formato inesperado.")
            else inr (content (choice_message choice))
        end
    end.

(** [handleSendMessage(userInput)] of this version. *)
Definition handleSendMessage `{Runtime} (net : Net) (userInput : string)
    (st : State) : State :=
  if String.eqb (trim userInput) "" || busy st then st
  else
    let newUserMessage := {| turn_role := user; turn_content := userInput |} in
    let call :=
      {| call_url := "https://api.mistral.ai/v1/chat/completions";
         call_authorization :=
           "Bearer " +:+ match key net with Some k => k | None => "undefined" end;
         call_model := "open-mistral-7b";
         call_messages := apiMessages st newUserMessage |} in
    let reply :=
      match send net (length (calls st)) call ≫= readAnswer with
      | inr senaResponse => {| turn_role := assistant; turn_content := senaResponse |}
      | inl _ => apology
      end in
    {| log := (log st ++ [newUserMessage]) ++ [reply];
       busy := false;
       mode := mode st;
       calls := calls st ++ [call] |}.

End Legacy.

(** ** Vocabulary of the statements *)

Section Vocabulary.
Context `{R : Runtime}.

(** The events of one call of [saveMessageToHistory] from state [st]. *)
Definition save_events (w : World) (newMessages : list Message) (st : App)
  : list Event :=
  [Append newMessages;
   LocalSet history_key (stringify_messages (messages st ++ newMessages))]
  ++ match supabase st with
     | Some _ => [RemoteInsert (toRecords w (clock_reads st) newMessages)]
     | None => []
     end.

(** Record several events in order. *)
Definition emit_all (evs : list Event) (st : App) : App :=
  foldl (fun s ev => emit ev s) st evs.

(** The primary store gives nothing to show: there is no client, the
    query throws or reports an error, it has no rows, or a row does not
    decode. *)
Definition primary_unavailable (w : World) (sb : option (list Row)) : Prop :=
  match sb with
  | None => True
  | Some table =>
      (exists e, select_messages w table = QueryThrew e)
      \/ (exists data err, select_messages w table = QueryResult data (Some err))
      \/ select_messages w table = QueryResult None None
      \/ select_messages w table = QueryResult (Some []) None
      \/ (exists rows e, select_messages w table = QueryResult (Some rows) None
                         /\ formatRows rows = inl e)
  end.

(** What the local store holds under [history_key], as a log: nothing
    when the record is absent, empty or unreadable. *)
Definition secondary_content (ls : gmap string string) : list Message :=
  match ls !! history_key with
  | Some saved =>
      if String.eqb saved "" then []
      else match parse_messages saved with
           | inr parsed => parsed
           | inl _ => []
           end
  | None => []
  end.

(** The names of the declared capabilities. *)
Definition declared : list string := map schema_name MistralService.tools.

(** Ascending order of [created_at], the order the select asks for. *)
Definition by_created_at (r1 r2 : Row) : Prop := created_at r1 <= created_at r2.

End Vocabulary.

(** ** Sample conversations *)

Module Scenario.
Import Sample.

(** A successful completion with one choice. *)
Definition completed (m : Message) : Response :=
  {| status := 200; statusText := "OK";
     json := inr (Some {| body_message := None;
                          body_choices := Some [ {| choice_message := m |} ] |}) |}.

(** An error answer with a JSON body [{ message }]. *)
Definition failed (code : Z) (text reason : string) : Response :=
  {| status := code; statusText := text;
     json := inr (Some {| body_message := Some reason; body_choices := None |}) |}.


(** The same two, as outcomes of [fetch]. *)
Definition completion (m : Message) : Exc Response := inr (completed m).

Definition failure (code : Z) (text reason : string) : Exc Response :=
  inr (failed code text reason).

(** A world that answers the n-th request with the n-th entry of
    [responses], whose clock stands at one millisecond, and whose mirror
    accepts every insert and lists its rows in insertion order. *)
Definition script (responses : list (Exc Response)) : World :=
  {| API_KEY := Some "sk-test";
     fetch := fun n _ => default (inl (Error "Failed to fetch")) (responses !! n);
     now := fun _ => 1762134540000;
     select_messages := fun table => QueryResult (Some table) None;
     insert_accepted := fun _ => true |}.

(** The state at mount, with an empty local store and no mirror. *)
Definition fresh : App := initialApp ∅ None.

Definition assistantSays (text : string) : Message :=
  {| role := assistant; content := text; tool_calls := None;
     tool_call_id := None; name := None |}.

Definition assistantCalls (calls : list ToolCall) : Message :=
  {| role := assistant; content := ""; tool_calls := Some calls;
     tool_call_id := None; name := None |}.

Definition call (i capability payload : string) : ToolCall :=
  {| tc_id := i;
     tc_function := {| fn_name := capability; fn_arguments := payload |} |}.

(** The payload [{"prompt":"a cat"}]. *)
Definition cat_payload : string :=
  "{" +:+ dquote +:+ "prompt" +:+ dquote +:+ ":" +:+ dquote +:+ "a cat" +:+ dquote +:+ "}".

Definition draw_cat : ToolCall := call "call_1" "generate_image" cat_payload.

(** A call of a capability that was never declared, with an object payload. *)
Definition get_weather : ToolCall := call "call_2" "get_weather" "{}".

(** The same call with an empty payload, which is not JSON. *)
Definition get_weather_empty : ToolCall := call "call_2" "get_weather" "".

Definition cat_picture : Message :=
  {| role := tool;
     content := "Imagem gerada com sucesso: ![a cat](https://image.pollinations.ai/prompt/a%20cat?width=1024&height=1024&nologo=true)";
     tool_calls := None; tool_call_id := Some "call_1";
     name := Some "generate_image" |}.

Definition weather_unknown : Message :=
  {| role := tool; content := unknown_tool_result; tool_calls := None;
     tool_call_id := Some "call_2"; name := Some "get_weather" |}.

(** A stored row with no tool calls. *)
Definition row (r : Role) (text : string) (instant : Z) : Row :=
  {| row_role := r; row_content := text; row_tool_calls := ColumnNull;
     created_at := instant |}.

(** Insertion into a list ordered by [created_at]; among equal instants
    the inserted row goes first. *)
Fixpoint insert_row (r : Row) (l : list Row) : list Row :=
  match l with
  | [] => [r]
  | x :: l' =>
      if created_at r <=? created_at x then r :: l else x :: insert_row r l'
  end.

(** An ascending order of the table by [created_at] that lists rows with
    equal instants latest insert first: one of the orders the select may
    answer with, since the query names no second sort key. *)
Definition order_newest_first (table : list Row) : list Row :=
  foldr insert_row [] (rev table).

(** The world of [script] with a mirror that answers in that order. *)
Definition script_newest_first (responses : list (Exc Response)) : World :=
  {| API_KEY := API_KEY (script responses);
     fetch := fetch (script responses);
     now := now (script responses);
     select_messages := fun table => QueryResult (Some (order_newest_first table)) None;
     insert_accepted := insert_accepted (script responses) |}.

End Scenario.

(** * Properties *)

(** ** Traces *)

Lemma appends_app (tr1 tr2 : list Event) :
  appends (tr1 ++ tr2) = appends tr1 ++ appends tr2.
Proof.
  induction tr1 as [|ev tr1 IH]; [reflexivity|].
  destruct ev; simpl; rewrite IH; reflexivity.
Qed.

Lemma fetches_app (tr1 tr2 : list Event) :
  fetches (tr1 ++ tr2) = fetches tr1 ++ fetches tr2.
Proof.
  induction tr1 as [|ev tr1 IH]; [reflexivity|].
  destruct ev; simpl; rewrite IH; reflexivity.
Qed.

Lemma local_reads_app (key : string) (tr1 tr2 : list Event) :
  local_reads key (tr1 ++ tr2) = (local_reads key tr1 + local_reads key tr2)%nat.
Proof.
  induction tr1 as [|ev tr1 IH]; [reflexivity|].
  destruct ev; simpl; try exact IH.
  destruct (String.eqb key0 key); simpl; rewrite IH; reflexivity.
Qed.


(** ** Reading a field after an update

    The updates nest deeply in a pass; these equations are used as rewrite
    rules, so that no proof has to compare two nested states. *)

Lemma setIsLoading_messages b st : messages (setIsLoading b st) = messages st.
Proof. reflexivity. Qed.

Lemma setIsLoading_trace b st : trace (setIsLoading b st) = trace st.
Proof. reflexivity. Qed.


Lemma setIsLoading_isLoading b st : isLoading (setIsLoading b st) = b.
Proof. reflexivity. Qed.

Lemma emit_messages ev st : messages (emit ev st) = messages st.
Proof. reflexivity. Qed.

Lemma emit_trace ev st : trace (emit ev st) = trace st ++ [ev].
Proof. reflexivity. Qed.

Lemma emit_localStorage ev st : localStorage (emit ev st) = localStorage st.
Proof. reflexivity. Qed.


(** ** The exception monad *)

Lemma Exc_bind_inr {A B : Type} (f : A -> Exc B) (m : Exc A) (y : B) :
  m ≫= f = inr y -> exists x, m = inr x /\ f x = inr y.
Proof. destruct m as [e|x]; [discriminate|]. intros H. exists x. split; [reflexivity|exact H]. Qed.

Section Facts.
Context `{R : Runtime}.

(** ** saveMessageToHistory *)

Lemma save_messages w batch st :
  messages (saveMessageToHistory w batch st) = messages st ++ batch.
Proof. reflexivity. Qed.

Lemma save_isLoading w batch st :
  isLoading (saveMessageToHistory w batch st) = isLoading st.
Proof.
  unfold saveMessageToHistory, insertRecords. simpl.
  destruct (supabase st); simpl; [destruct (insert_accepted _ _)|]; reflexivity.
Qed.

Lemma save_trace w batch st :
  trace (saveMessageToHistory w batch st) = trace st ++ save_events w batch st.
Proof.
  unfold saveMessageToHistory, insertRecords, save_events. simpl.
  destruct (supabase st); simpl; [destruct (insert_accepted _ _)|]; simpl;
    rewrite <- ?app_assoc; reflexivity.
Qed.

Lemma save_local w batch st :
  localStorage (saveMessageToHistory w batch st)
  = <[history_key := stringify_messages (messages st ++ batch)]> (localStorage st).
Proof.
  unfold saveMessageToHistory, insertRecords. simpl.
  destruct (supabase st); simpl; [destruct (insert_accepted _ _)|]; reflexivity.
Qed.

Lemma save_appends w batch st :
  appends (trace (saveMessageToHistory w batch st)) = appends (trace st) ++ [batch].
Proof.
  rewrite save_trace, appends_app. f_equal.
  unfold save_events. destruct (supabase st); reflexivity.
Qed.

Lemma save_fetches w batch st :
  fetches (trace (saveMessageToHistory w batch st)) = fetches (trace st).
Proof.
  rewrite save_trace, fetches_app.
  unfold save_events. destruct (supabase st); simpl; apply app_nil_r.
Qed.

End Facts.

Section Pass.
Context `{R : Runtime}.

Lemma sendMessage_eq w history mode key st :
  MistralService.sendMessage w history mode key st
  = (fetch w (length (fetches (trace st))) (MistralService.request history mode key)
       ≫= MistralService.readResponse,
     emit (Fetch (MistralService.request history mode key)) st).
Proof.
  unfold MistralService.sendMessage.
  destruct (fetch w _ _); reflexivity.
Qed.

Lemma emit_fetches ev st :
  fetches (trace (emit ev st)) = fetches (trace st) ++ fetches [ev].
Proof. simpl. apply fetches_app. Qed.

Lemma emit_all_messages evs : forall st, messages (emit_all evs st) = messages st.
Proof. induction evs as [|ev evs IH]; intros st; [reflexivity|]. simpl. rewrite IH. reflexivity. Qed.

Lemma emit_all_isLoading evs : forall st, isLoading (emit_all evs st) = isLoading st.
Proof. induction evs as [|ev evs IH]; intros st; [reflexivity|]. simpl. rewrite IH. reflexivity. Qed.

Lemma emit_all_trace evs : forall st, trace (emit_all evs st) = trace st ++ evs.
Proof.
  induction evs as [|ev evs IH]; intros st; simpl.
  - rewrite app_nil_r. reflexivity.
  - rewrite IH. simpl. rewrite <- app_assoc. reflexivity.
Qed.

Lemma appends_map_Fetch reqs : appends (map Fetch reqs) = [].
Proof. induction reqs; [reflexivity|assumption]. Qed.

Lemma fetches_map_Fetch reqs : fetches (map Fetch reqs) = reqs.
Proof. induction reqs as [|r reqs IH]; [reflexivity|]. simpl. rewrite IH. reflexivity. Qed.

Lemma emit_all_localStorage evs : forall st, localStorage (emit_all evs st) = localStorage st.
Proof. induction evs as [|ev evs IH]; intros st; [reflexivity|]. simpl. rewrite IH. reflexivity. Qed.

Lemma emit_all_supabase evs : forall st, supabase (emit_all evs st) = supabase st.
Proof. induction evs as [|ev evs IH]; intros st; [reflexivity|]. simpl. rewrite IH. reflexivity. Qed.

(** ** The tool loop *)

Lemma runTools_ok calls : forall h b msgs,
  Forall2 (fun call m => executeTool call = inr m) calls msgs ->
  runTools calls h b = inr (h ++ msgs, b ++ msgs).
Proof.
  induction calls as [|call calls IH]; intros h b msgs Hall.
  - inversion Hall; subst. simpl. rewrite !app_nil_r. reflexivity.
  - inversion Hall as [|? m ? msgs' Hm Hrest]; subst. simpl.
    rewrite Hm. simpl. rewrite (IH _ _ _ Hrest), <- !app_assoc. reflexivity.
Qed.

Lemma runTools_inv calls : forall h b h' b',
  runTools calls h b = inr (h', b') ->
  exists msgs, Forall2 (fun call m => executeTool call = inr m) calls msgs
    /\ h' = h ++ msgs /\ b' = b ++ msgs.
Proof.
  induction calls as [|call calls IH]; intros h b h' b' Hrun; simpl in Hrun.
  - inversion Hrun; subst. exists []. rewrite !app_nil_r. repeat split. constructor.
  - destruct (executeTool call) as [e|m] eqn:Hm; [discriminate|]. simpl in Hrun.
    destruct (IH _ _ _ _ Hrun) as (msgs & Hall & -> & ->).
    exists (m :: msgs). rewrite <- !app_assoc. repeat split. constructor; assumption.
Qed.

Lemma runTools_throws pre : forall bad post msgs e h b,
  Forall2 (fun call m => executeTool call = inr m) pre msgs ->
  executeTool bad = inl e ->
  runTools (pre ++ bad :: post) h b = inl e.
Proof.
  induction pre as [|call pre IH]; intros bad post msgs e h b Hall Hbad.
  - simpl. rewrite Hbad. reflexivity.
  - inversion Hall as [|? m ? msgs' Hm Hrest]; subst. simpl. rewrite Hm. simpl.
    eapply IH; eassumption.
Qed.

Lemma executeTool_parse_error toolCall e :
  JSON_parse (fn_arguments (tc_function toolCall)) = inl e ->
  executeTool toolCall = inl e.
Proof. intros H. unfold executeTool. rewrite H. reflexivity. Qed.

Lemma executeTool_shape toolCall m :
  executeTool toolCall = inr m ->
  role m = tool /\ tool_call_id m = Some (tc_id toolCall)
  /\ name m = Some (fn_name (tc_function toolCall)) /\ tool_calls m = None.
Proof.
  unfold executeTool. intros H.
  apply Exc_bind_inr in H as (args & _ & H).
  apply Exc_bind_inr in H as (result & _ & H).
  inversion H; subst. simpl. repeat split.
Qed.

(** ** The try block *)

Lemma tryBlock_shape w m0 u mode st :
  exists reqs, (length reqs <= 2)%nat /\
    let stX := emit_all (map Fetch reqs) st in
    (exists e, tryBlock w m0 u mode st = (inl e, stX))
    \/ (exists batch, tryBlock w m0 u mode st = (inr tt, saveMessageToHistory w batch stX)).
Proof.
  unfold tryBlock, mbind, M_bind, liftExc, perform.
  destruct (requireApiKey w) as [e|key].
  { exists []. split; [simpl; lia|]. left. exists e. reflexivity. }
  rewrite sendMessage_eq.
  destruct (fetch w _ _ ≫= MistralService.readResponse) as [e|a].
  { eexists [_]. split; [simpl; lia|]. left. exists e. reflexivity. }
  destruct (tool_calls a) as [[|c cs]|].
  - eexists [_]. split; [simpl; lia|]. right. eexists. reflexivity.
  - destruct (runTools _ _ _) as [e|[h b]].
    { eexists [_]. split; [simpl; lia|]. left. exists e. reflexivity. }
    rewrite sendMessage_eq.
    destruct (fetch w _ _ ≫= MistralService.readResponse) as [e|final].
    + eexists [_; _]. split; [simpl; lia|]. left. exists e. reflexivity.
    + eexists [_; _]. split; [simpl; lia|]. right. eexists. reflexivity.
  - eexists [_]. split; [simpl; lia|]. right. eexists. reflexivity.
Qed.

End Pass.

Section PassFacts.
Context `{R : Runtime}.

Lemma begun_fetches w batch st :
  length (fetches (trace (setIsLoading true (saveMessageToHistory w batch st))))
  = length (fetches (trace st)).
Proof.
  rewrite setIsLoading_trace, save_fetches. reflexivity.
Qed.

Lemma emit_Fetch_count req st :
  length (fetches (trace (emit (Fetch req) st))) = S (length (fetches (trace st))).
Proof. rewrite emit_fetches, length_app. simpl. lia. Qed.

(** A pass in which the first answer asks for tools, every tool call
    executes and the second request is answered: the try block returns
    after two requests and one append. *)
Lemma tool_pass_done w userInput st key a c cs r1 r2 final toolMsgs :
  requireApiKey w = inr key ->
  let userMsg := userMessage userInput in
  let mode := conversationMode st in
  let n := length (fetches (trace st)) in
  let req1 := MistralService.request (messages st ++ [userMsg]) mode key in
  let req2 := MistralService.request (messages st ++ [userMsg; a] ++ toolMsgs) mode key in
  fetch w n req1 = inr r1 ->
  MistralService.readResponse r1 = inr a ->
  tool_calls a = Some (c :: cs) ->
  Forall2 (fun call m => executeTool call = inr m) (c :: cs) toolMsgs ->
  fetch w (S n) req2 = inr r2 ->
  MistralService.readResponse r2 = inr final ->
  let begun := setIsLoading true (saveMessageToHistory w [userMsg] st) in
  tryBlock w (messages st) userMsg mode begun
  = (inr tt,
     saveMessageToHistory w (a :: toolMsgs ++ [final])
       (emit (Fetch req2) (emit (Fetch req1) begun))).
Proof.
  intros Hkey userMsg mode n req1 req2 Hf1 Hr1 Hcalls Htools Hf2 Hr2 begun.
  unfold tryBlock, mbind, M_bind, liftExc, perform.
  rewrite Hkey, sendMessage_eq.
  unfold begun at 1. rewrite begun_fetches. fold begun. fold userMsg mode n req1.
  rewrite Hf1. cbn [mbind Exc_bind]. rewrite Hr1, Hcalls.
  rewrite (runTools_ok _ _ _ _ Htools). cbn [fst snd].
  rewrite sendMessage_eq, emit_Fetch_count.
  unfold begun at 1. rewrite begun_fetches. fold begun.
  rewrite <- (app_assoc (messages st) [userMsg; a] toolMsgs).
  fold req2. fold n. rewrite Hf2. cbn [mbind Exc_bind]. rewrite Hr2.
  reflexivity.
Qed.

(** The same pass when some tool call throws: the loop stops there and
    the try block throws what the call threw, after one request. *)
Lemma tool_pass_throws w userInput st key a pre bad post r1 msgs e :
  requireApiKey w = inr key ->
  let userMsg := userMessage userInput in
  let mode := conversationMode st in
  let req1 := MistralService.request (messages st ++ [userMsg]) mode key in
  fetch w (length (fetches (trace st))) req1 = inr r1 ->
  MistralService.readResponse r1 = inr a ->
  tool_calls a = Some (pre ++ bad :: post) ->
  Forall2 (fun call m => executeTool call = inr m) pre msgs ->
  executeTool bad = inl e ->
  let begun := setIsLoading true (saveMessageToHistory w [userMsg] st) in
  tryBlock w (messages st) userMsg mode begun = (inl e, emit (Fetch req1) begun).
Proof.
  intros Hkey userMsg mode req1 Hf1 Hr1 Hcalls Hpre Hbad begun.
  unfold tryBlock, mbind, M_bind, liftExc, perform.
  rewrite Hkey, sendMessage_eq.
  unfold begun at 1. rewrite begun_fetches. fold begun. fold userMsg mode req1.
  rewrite Hf1. cbn [mbind Exc_bind]. rewrite Hr1, Hcalls.
  destruct (pre ++ bad :: post) as [|c cs] eqn:Hlist.
  { destruct pre; discriminate. }
  rewrite <- Hlist, (runTools_throws _ _ _ _ _ _ _ Hpre Hbad). reflexivity.
Qed.

Lemma prefix_append (s t : string) : String.prefix s (s +:+ t) = true.
Proof.
  induction s as [|c s IH]; simpl.
  - destruct t; reflexivity.
  - destruct (Ascii.ascii_dec c c) as [_|Hne]; [exact IH|congruence].
Qed.

End PassFacts.

Section Claims.
Context `{R : Runtime}.


End Claims.

(** ** The handler between its awaits *)

Section Awaits.
Context `{R : Runtime}.

Lemma answer_eq w n req :
  answer w n req = fetch w n req ≫= MistralService.readResponse.
Proof. unfold answer. destruct (fetch w n req); reflexivity. Qed.

Lemma run_cons w action actions page :
  run w (action :: actions) page = run w actions (act w page action).
Proof. reflexivity. Qed.

(** The guard reads the handler's [isLoading]: a submission through a
    handler that saw the flag set, or of a blank text, returns at once
    and leaves the component as it is. *)
Lemma submit_rejected w page userInput :
  String.eqb (trim userInput) "" || seen_isLoading (onSendMessage page) = true ->
  act w page (Submit userInput)
  = {| component := component page; onSendMessage := onSendMessage page;
       pending := pending page ++ [None] |}.
Proof. intros H. unfold act, begin. rewrite H. reflexivity. Qed.

(** Any other submission saves the user's message and waits, whatever
    [isLoading] is in the component by then and whatever calls are
    waiting. *)
Lemma submit_accepted w page userInput :
  String.eqb (trim userInput) "" || seen_isLoading (onSendMessage page) = false ->
  act w page (Submit userInput)
  = {| component := saveMessageToHistory w [userMessage userInput] (component page);
       onSendMessage := onSendMessage page;
       pending := pending page
                  ++ [Some (AwaitUserSave (seen_messages (onSendMessage page))
                              (userMessage userInput)
                              (seen_conversationMode (onSendMessage page)))] |}.
Proof. intros H. unfold act, begin. rewrite H. reflexivity. Qed.

Lemma settle_waiting w page i call st call' :
  pending page !! i = Some (Some call) ->
  resume w call (component page) = (st, call') ->
  act w page (Settle i)
  = {| component := st; onSendMessage := onSendMessage page;
       pending := <[i := call']> (pending page) |}.
Proof. intros Hi Hres. unfold act. rewrite Hi, Hres. reflexivity. Qed.

Lemma settle_returned w page i :
  pending page !! i = Some None -> act w page (Settle i) = page.
Proof. intros Hi. unfold act. rewrite Hi. reflexivity. Qed.

Lemma run_returned w actions : forall page,
  pending page = [None] ->
  Forall (fun action => action = Settle 0) actions ->
  run w actions page = page.
Proof.
  induction actions as [|action actions IH]; intros page Hp Hall; [reflexivity|].
  inversion Hall as [|? ? Ha Hrest]; subst. rewrite run_cons.
  rewrite settle_returned by (rewrite Hp; reflexivity). apply IH; assumption.
Qed.

Ltac settle_with tac :=
  rewrite run_cons;
  erewrite settle_waiting; [|reflexivity|cbn [resume component]; tac; reflexivity];
  cbn [insert list_insert pending].

Ltac returned :=
  rewrite run_returned by (try reflexivity; repeat constructor); reflexivity.

(** One call on its own: submitted through the handler of the current
    render and left to run through its awaits (four at most) with nothing
    in between, it does to the component what [handleSendMessage] does
    in one go. *)
Lemma handleSendMessage_in_steps w userInput st :
  handleSendMessage w userInput st
  = component (run w [Submit userInput; Settle 0; Settle 0; Settle 0; Settle 0]
                 (mount st)).
Proof.
  unfold handleSendMessage, rejected. rewrite run_cons.
  destruct (String.eqb (trim userInput) "" || isLoading st) eqn:Hguard.
  { rewrite (submit_rejected w (mount st) userInput Hguard). returned. }
  rewrite (submit_accepted w (mount st) userInput Hguard).
  cbn [mount component onSendMessage pending render seen_messages
       seen_conversationMode app].
  set (userMsg := userMessage userInput).
  set (saved := saveMessageToHistory w [userMsg] st). clearbody saved.
  unfold tryBlock, mbind, M_bind, liftExc, perform.
  destruct (requireApiKey w) as [e|key] eqn:Hkey.
  { settle_with ltac:(rewrite Hkey). settle_with idtac. returned. }
  settle_with ltac:(rewrite Hkey).
  rewrite sendMessage_eq, <- answer_eq.
  set (begun := setIsLoading true saved). clearbody begun.
  set (req1 := MistralService.request _ _ _).
  set (n1 := length (fetches (trace begun))). clearbody n1.
  set (st1 := emit (Fetch req1) begun). clearbody st1.
  destruct (answer w n1 req1) as [e|a] eqn:Ha.
  { settle_with ltac:(fold req1; rewrite Ha). settle_with idtac. returned. }
  destruct (tool_calls a) as [[|c cs]|] eqn:Hcalls.
  - settle_with ltac:(fold req1; rewrite Ha, Hcalls). settle_with idtac. returned.
  - destruct (runTools (c :: cs) (messages st ++ [userMsg; a]) [a])
      as [e|lists] eqn:Htools.
    { settle_with ltac:(fold req1; rewrite Ha, Hcalls, Htools).
      settle_with idtac. returned. }
    settle_with ltac:(fold req1; rewrite Ha, Hcalls, Htools).
    rewrite sendMessage_eq, <- answer_eq.
    set (req2 := MistralService.request _ _ _).
    set (n2 := length (fetches (trace st1))). clearbody n2.
    set (st2 := emit (Fetch req2) st1). clearbody st2.
    destruct (answer w n2 req2) as [e|final] eqn:Hfinal.
    + settle_with ltac:(rewrite Hfinal). settle_with idtac. returned.
    + settle_with ltac:(rewrite Hfinal). settle_with idtac. returned.
  - settle_with ltac:(fold req1; rewrite Ha, Hcalls). settle_with idtac. returned.
Qed.

(** The flag is raised only by the first continuation of a call: after
    the submission itself the component is not busy yet. *)
Lemma submitted_not_busy_yet w page userInput :
  isLoading (component page) = false ->
  isLoading (component (act w page (Submit userInput))) = false.
Proof.
  intros Hidle.
  destruct (String.eqb (trim userInput) "" || seen_isLoading (onSendMessage page))
    eqn:Hguard.
  - rewrite (submit_rejected _ _ _ Hguard). exact Hidle.
  - rewrite (submit_accepted _ _ _ Hguard). cbn [component].
    rewrite save_isLoading. exact Hidle.
Qed.

End Awaits.

Section TwoSubmissions.
Import Scenario.


End TwoSubmissions.

Section Stores.
Context `{R : Runtime}.

Lemma loadLocal_messages ls sb evs :
  messages (loadLocal (emit_all evs (initialApp ls sb))) = secondary_content ls.
Proof.
  unfold loadLocal, secondary_content.
  change (localStorage (emit (LocalGet history_key) (emit_all evs (initialApp ls sb))))
    with (localStorage (emit_all evs (initialApp ls sb))).
  assert (Hls : localStorage (emit_all evs (initialApp ls sb)) = ls)
    by (rewrite emit_all_localStorage; reflexivity).
  assert (Hms : messages (emit_all evs (initialApp ls sb)) = [])
    by (rewrite emit_all_messages; reflexivity).
  rewrite Hls. destruct (ls !! history_key) as [saved|]; [|exact Hms].
  destruct (String.eqb saved ""); [exact Hms|].
  destruct (parse_messages saved); [exact Hms|reflexivity].
Qed.

Lemma loadLocal_reads st :
  In (LocalGet history_key) (trace (loadLocal st)).
Proof.
  unfold loadLocal.
  assert (H : In (LocalGet history_key) (trace (emit (LocalGet history_key) st))).
  { simpl. apply in_or_app. right. left. reflexivity. }
  change (localStorage (emit (LocalGet history_key) st)) with (localStorage st).
  destruct (localStorage st !! history_key) as [saved|]; [|exact H].
  destruct (String.eqb saved ""); [exact H|].
  destruct (parse_messages saved); exact H.
Qed.

(** C2. Load precedence, from the state at mount. When the mirror is configured,
    its query succeeds with at least one row and the rows decode, the log
    shown is the decoded rows and the local store is never read. When the
    mirror is absent, throws, reports an error, has no rows or a row does
    not decode, the local store is read and the log shown is its content
    (empty when there is none). *)
Theorem load_precedence w ls sb :
  let st' := loadChatHistory w (initialApp ls sb) in
  (forall table d ds formatted,
     sb = Some table ->
     select_messages w table = QueryResult (Some (d :: ds)) None ->
     formatRows (d :: ds) = inr formatted ->
     messages st' = formatted
     /\ trace st' = [RemoteSelect]
     /\ local_reads history_key (trace st') = 0%nat)
  /\ (primary_unavailable w sb ->
      messages st' = secondary_content ls
      /\ In (LocalGet history_key) (trace st')).
Proof.
  intros st'. subst st'. split.
  - intros table d ds formatted -> Hsel Hrows.
    unfold loadChatHistory. cbn [supabase initialApp]. rewrite Hsel, Hrows.
    repeat split.
  - intros Hun. unfold loadChatHistory. cbn [supabase initialApp].
    destruct sb as [table|]; cbn [primary_unavailable] in Hun.
    + assert (Hfall :
        messages (loadLocal (emit RemoteSelect (initialApp ls (Some table))))
          = secondary_content ls
        /\ In (LocalGet history_key)
              (trace (loadLocal (emit RemoteSelect (initialApp ls (Some table)))))).
      { split; [apply (loadLocal_messages ls (Some table) [RemoteSelect])|apply loadLocal_reads]. }
      destruct Hun as [(e & ->) | [(data & err & ->) | [-> | [-> | (rows & e & -> & Hbad)]]]];
        try exact Hfall.
      * destruct data as [[|d ds]|]; exact Hfall.
      * destruct rows as [|d ds]; [exact Hfall|]. rewrite Hbad. exact Hfall.
    + split; [apply (loadLocal_messages ls None [])|apply loadLocal_reads].
Qed.

(** C10. Clearing the conversation, once confirmed, empties the log and
    removes the local record, and nothing else: the mirror's table is the
    one it was, the other keys of the local store keep their values, and
    the only store call is the removal. *)
Theorem clear_chat_leaves_mirror st :
  let st' := handleClearChat true st in
  messages st' = []
  /\ localStorage st' !! history_key = None
  /\ supabase st' = supabase st
  /\ (forall key, key <> history_key -> localStorage st' !! key = localStorage st !! key)
  /\ trace st' = trace st ++ [LocalRemove history_key].
Proof.
  cbn. repeat split.
  - apply lookup_delete_eq.
  - intros key Hkey. apply lookup_delete_ne. congruence.
Qed.

End Stores.

Section Passes.
Context `{R : Runtime}.


(** C3. Failure handling. When the try block of an accepted pass throws,
    whatever threw, what the pass appends after the user message is one
    batch holding one assistant message, whose text is the warning marker
    followed by the error's message; no message of the interrupted
    exchange reaches the log; no request follows the failure, and the
    pass has issued at most two; the busy flag is cleared. A tool call
    whose payload does not parse is such a failure: the calls after it do
    not run and the second request is never issued. *)
Theorem failure_handling w userInput st :
  rejected userInput st = false ->
  let userMsg := userMessage userInput in
  let mode := conversationMode st in
  let begun := setIsLoading true (saveMessageToHistory w [userMsg] st) in
  let st' := handleSendMessage w userInput st in
  (forall error st2,
     tryBlock w (messages st) userMsg mode begun = (inl error, st2) ->
     messages st' = messages st ++ [userMsg; errorMessage error]
     /\ appends (trace st') = appends (trace st) ++ [[userMsg]; [errorMessage error]]
     /\ role (errorMessage error) = assistant
     /\ content (errorMessage error) = warning_marker +:+ message error
     /\ String.prefix warning_marker (content (errorMessage error)) = true
     /\ fetches (trace st') = fetches (trace st2)
     /\ (length (fetches (trace st')) <= length (fetches (trace st)) + 2)%nat
     /\ isLoading st' = false)
  /\ (forall key r1 a pre bad post msgs e,
        requireApiKey w = inr key ->
        fetch w (length (fetches (trace st)))
          (MistralService.request (messages st ++ [userMsg]) mode key) = inr r1 ->
        MistralService.readResponse r1 = inr a ->
        tool_calls a = Some (pre ++ bad :: post) ->
        Forall2 (fun call m => executeTool call = inr m) pre msgs ->
        JSON_parse (fn_arguments (tc_function bad)) = inl e ->
        tryBlock w (messages st) userMsg mode begun
        = (inl e, emit (Fetch (MistralService.request (messages st ++ [userMsg]) mode key)) begun)
        /\ fetches (trace st')
           = fetches (trace st)
             ++ [MistralService.request (messages st ++ [userMsg]) mode key]).
Proof.
  intros Hacc userMsg mode begun st'.
  assert (Hhandler : forall error st2,
    tryBlock w (messages st) userMsg mode begun = (inl error, st2) ->
    st' = setIsLoading false (saveMessageToHistory w [errorMessage error] st2)).
  { intros error st2 Htry. unfold st', handleSendMessage. rewrite Hacc.
    fold userMsg mode begun. rewrite Htry. reflexivity. }
  clearbody st'. split.
  - intros error st2 Htry. rewrite (Hhandler _ _ Htry).
    destruct (tryBlock_shape w (messages st) userMsg mode begun)
      as (reqs & Hlen & [(e & Hfail) | (batch & Hdone)]);
      [|rewrite Hdone in Htry; discriminate].
    rewrite Hfail in Htry. inversion Htry; subst e st2. clear Htry.
    rewrite setIsLoading_messages, setIsLoading_trace, setIsLoading_isLoading.
    rewrite save_messages, save_appends, save_fetches.
    rewrite emit_all_messages, emit_all_trace, appends_app, fetches_app.
    rewrite appends_map_Fetch, fetches_map_Fetch, app_nil_r.
    unfold begun. rewrite setIsLoading_messages, setIsLoading_trace.
    rewrite save_messages, save_appends, save_fetches, length_app.
    rewrite <- !app_assoc.
    repeat split; try reflexivity; [apply prefix_append | lia].
  - intros key r1 a pre bad post msgs e Hkey Hf1 Hr1 Hcalls Hpre Hparse.
    pose proof (tool_pass_throws w userInput st key a pre bad post r1 msgs e
                  Hkey Hf1 Hr1 Hcalls Hpre (executeTool_parse_error _ _ Hparse)) as Htry.
    fold userMsg mode begun in Htry. split; [exact Htry|].
    rewrite (Hhandler _ _ Htry).
    rewrite setIsLoading_trace, save_fetches, emit_fetches.
    unfold begun. rewrite setIsLoading_trace, save_fetches. reflexivity.
Qed.

(** C1, amended. In a pass whose first answer carries tool calls, in
    which every tool call executes without throwing and the second
    request is answered with a message, what the pass appends after the
    user message is one batch, through one call of
    [saveMessageToHistory]: the assistant message with the tool calls,
    one tool-role message per call in the order of the calls, each
    naming its call, and the final assistant message. *)
Theorem tool_pass_batch w userInput st key a c cs r1 r2 final toolMsgs :
  rejected userInput st = false ->
  requireApiKey w = inr key ->
  let userMsg := userMessage userInput in
  let mode := conversationMode st in
  let n := length (fetches (trace st)) in
  fetch w n (MistralService.request (messages st ++ [userMsg]) mode key) = inr r1 ->
  MistralService.readResponse r1 = inr a ->
  tool_calls a = Some (c :: cs) ->
  Forall2 (fun call m => executeTool call = inr m) (c :: cs) toolMsgs ->
  fetch w (S n)
    (MistralService.request (messages st ++ [userMsg; a] ++ toolMsgs) mode key) = inr r2 ->
  MistralService.readResponse r2 = inr final ->
  let st' := handleSendMessage w userInput st in
  appends (trace st') = appends (trace st) ++ [[userMsg]; a :: toolMsgs ++ [final]]
  /\ messages st' = messages st ++ userMsg :: a :: toolMsgs ++ [final]
  /\ Forall2 (fun call m => role m = tool
                            /\ tool_call_id m = Some (tc_id call)
                            /\ name m = Some (fn_name (tc_function call)))
       (c :: cs) toolMsgs.
Proof.
  intros Hacc Hkey userMsg mode n Hf1 Hr1 Hcalls Htools Hf2 Hr2 st'.
  pose proof (tool_pass_done w userInput st key a c cs r1 r2 final toolMsgs
                Hkey Hf1 Hr1 Hcalls Htools Hf2 Hr2) as Htry.
  cbv zeta in Htry. fold userMsg mode in Htry.
  assert (Hst' : st' = setIsLoading false
            (saveMessageToHistory w (a :: toolMsgs ++ [final])
               (emit (Fetch (MistralService.request
                               (messages st ++ [userMsg; a] ++ toolMsgs) mode key))
                  (emit (Fetch (MistralService.request
                                  (messages st ++ [userMsg]) mode key))
                     (setIsLoading true (saveMessageToHistory w [userMsg] st)))))).
  { unfold st', handleSendMessage. rewrite Hacc. fold userMsg mode.
    rewrite Htry. reflexivity. }
  clearbody st'. subst st'.
  rewrite setIsLoading_messages, setIsLoading_trace, save_messages, save_appends.
  rewrite !emit_messages, !emit_trace, setIsLoading_messages, setIsLoading_trace.
  rewrite save_messages, !appends_app, save_appends.
  repeat split.
  - cbn [appends]. rewrite !app_nil_r, <- app_assoc. reflexivity.
  - rewrite <- app_assoc. reflexivity.
  - eapply Forall2_impl; [exact Htools|].
    intros call m Hm. apply executeTool_shape in Hm. tauto.
Qed.

(** C7, amended. A tool call whose capability is not declared and whose
    payload parses executes to a tool-role message carrying the fixed
    text of an unknown tool, and throws nothing. In a pass whose tool
    calls all execute and whose second request is answered, the try
    block returns: the second request was issued with the tool messages,
    the full batch is appended, and each message answering an undeclared
    capability carries that fixed text. *)
Theorem unknown_capability_is_data w userInput st :
  (forall toolCall args,
     ~ In (fn_name (tc_function toolCall)) declared ->
     JSON_parse (fn_arguments (tc_function toolCall)) = inr args ->
     executeTool toolCall
     = inr {| role := tool; content := unknown_tool_result; tool_calls := None;
              tool_call_id := Some (tc_id toolCall);
              name := Some (fn_name (tc_function toolCall)) |})
  /\ (forall key a c cs r1 r2 final toolMsgs,
        rejected userInput st = false ->
        requireApiKey w = inr key ->
        let userMsg := userMessage userInput in
        let mode := conversationMode st in
        let n := length (fetches (trace st)) in
        let req1 := MistralService.request (messages st ++ [userMsg]) mode key in
        let req2 :=
          MistralService.request (messages st ++ [userMsg; a] ++ toolMsgs) mode key in
        fetch w n req1 = inr r1 ->
        MistralService.readResponse r1 = inr a ->
        tool_calls a = Some (c :: cs) ->
        Forall2 (fun call m => executeTool call = inr m) (c :: cs) toolMsgs ->
        fetch w (S n) req2 = inr r2 ->
        MistralService.readResponse r2 = inr final ->
        let begun := setIsLoading true (saveMessageToHistory w [userMsg] st) in
        let st' := handleSendMessage w userInput st in
        (exists done, tryBlock w (messages st) userMsg mode begun = (inr tt, done))
        /\ fetches (trace st') = fetches (trace st) ++ [req1; req2]
        /\ appends (trace st') = appends (trace st) ++ [[userMsg]; a :: toolMsgs ++ [final]]
        /\ Forall2 (fun call m => ~ In (fn_name (tc_function call)) declared ->
                                  content m = unknown_tool_result)
             (c :: cs) toolMsgs).
Proof.
  split.
  - intros toolCall args Hundeclared Hparse. unfold executeTool. rewrite Hparse.
    cbn [mbind Exc_bind].
    destruct (String.eqb_spec (fn_name (tc_function toolCall)) "generate_image") as [Heq|_].
    { exfalso. apply Hundeclared. rewrite Heq. left. reflexivity. }
    destruct (String.eqb_spec (fn_name (tc_function toolCall)) "web_search") as [Heq|_].
    { exfalso. apply Hundeclared. rewrite Heq. right. left. reflexivity. }
    reflexivity.
  - intros key a c cs r1 r2 final toolMsgs Hacc Hkey userMsg mode n req1 req2
           Hf1 Hr1 Hcalls Htools Hf2 Hr2 begun st'.
    pose proof (tool_pass_done w userInput st key a c cs r1 r2 final toolMsgs
                  Hkey Hf1 Hr1 Hcalls Htools Hf2 Hr2) as Htry.
    cbv zeta in Htry. fold userMsg mode req1 req2 begun in Htry.
    assert (Hst' : st' = setIsLoading false
              (saveMessageToHistory w (a :: toolMsgs ++ [final])
                 (emit (Fetch req2) (emit (Fetch req1) begun)))).
    { unfold st', handleSendMessage. rewrite Hacc. fold userMsg mode begun.
      rewrite Htry. reflexivity. }
    split; [eexists; exact Htry|].
    clearbody st'. subst st'.
    rewrite setIsLoading_trace, save_fetches, save_appends, !emit_trace.
    unfold begun. rewrite setIsLoading_trace.
    rewrite !fetches_app, !appends_app, save_fetches, save_appends.
    cbn [fetches appends]. rewrite !app_nil_r, <- !app_assoc.
    repeat split.
    eapply Forall2_impl; [exact Htools|].
    intros call m Hm Hundeclared. unfold executeTool in Hm.
    apply Exc_bind_inr in Hm as (args & _ & Hm).
    destruct (String.eqb_spec (fn_name (tc_function call)) "generate_image") as [Heq|_].
    { exfalso. apply Hundeclared. rewrite Heq. left. reflexivity. }
    destruct (String.eqb_spec (fn_name (tc_function call)) "web_search") as [Heq|_].
    { exfalso. apply Hundeclared. rewrite Heq. right. left. reflexivity. }
    cbn [mbind Exc_bind] in Hm. inversion Hm. reflexivity.
Qed.

End Passes.

(** ** The theorems at work on sample conversations *)

Section Samples.
Import Scenario.

(** C2, witness: a mirror with one row wins over a local record, which is
    not read; without a mirror the local record is what is shown. *)
Lemma load_precedence_witness :
  let local : gmap string string :=
    {[ history_key := stringify_messages [userMessage "from the local store"] ]} in
  let table := [row assistant "from the mirror" 5] in
  (messages (loadChatHistory (script []) (initialApp local (Some table)))
   = [assistantSays "from the mirror"]
   /\ local_reads history_key
        (trace (loadChatHistory (script []) (initialApp local (Some table)))) = 0%nat)
  /\ messages (loadChatHistory (script []) (initialApp local None))
     = [userMessage "from the local store"].
Proof.
  intros local table. split.
  - destruct (load_precedence (script []) local (Some table)) as [Hprimary _].
    destruct (Hprimary table (row assistant "from the mirror" 5) []
                [assistantSays "from the mirror"] eq_refl eq_refl eq_refl)
      as (Hm & _ & Hr).
    split; [exact Hm|exact Hr].
  - destruct (load_precedence (script []) local None) as [_ Hsecondary].
    destruct (Hsecondary I) as [Hm _].
    rewrite Hm. vm_compute. reflexivity.
Defined.

(** C3, witness: the service answers 401; the pass appends the user
    message, then one warning message, after one request. *)
Lemma failure_handling_witness :
  let w := script [failure 401 "Unauthorized" "Unauthorized"] in
  let st' := handleSendMessage w "hello" fresh in
  messages st'
  = [userMessage "hello";
     errorMessage (Error "Chave de API inválida. Verifique suas configurações.")]
  /\ appends (trace st')
     = [[userMessage "hello"];
        [errorMessage (Error "Chave de API inválida. Verifique suas configurações.")]]
  /\ length (fetches (trace st')) = 1%nat.
Proof.
  intros w st'.
  assert (Hacc : rejected "hello" fresh = false) by (vm_compute; reflexivity).
  destruct (failure_handling w "hello" fresh Hacc) as [Hcatch _].
  edestruct Hcatch as (Hm & Ha & _).
  { vm_compute. reflexivity. }
  split; [exact Hm|]. split; [exact Ha|].
  vm_compute. reflexivity.
Defined.


(** C1, counterexample: the first answer asks for a picture and the
    payload parses, but the second request is answered 503: the batch
    appended at the end is the warning message alone. *)
Lemma tool_pass_batch_needs_second_answer :
  let w := script [completion (assistantCalls [draw_cat]);
                   failure 503 "Service Unavailable" "overloaded"] in
  let userMsg := userMessage "draw a cat" in
  let st' := handleSendMessage w "draw a cat" fresh in
  rejected "draw a cat" fresh = false
  /\ fetch w 0 (MistralService.request [userMsg] Explicativo "sk-test")
       ≫= MistralService.readResponse
     = inr (assistantCalls [draw_cat])
  /\ executeTool draw_cat = inr cat_picture
  /\ appends (trace st')
     = [[userMsg]; [errorMessage (Error "Erro API Mistral: overloaded")]]
  /\ ~ (exists toolMsgs final,
          appends (trace st')
          = [[userMsg]; assistantCalls [draw_cat] :: toolMsgs ++ [final]]).
Proof.
  intros w userMsg st'.
  assert (Happ : appends (trace st')
                 = [[userMsg]; [errorMessage (Error "Erro API Mistral: overloaded")]])
    by (vm_compute; reflexivity).
  split; [vm_compute; reflexivity|].
  split; [vm_compute; reflexivity|].
  split; [vm_compute; reflexivity|].
  split; [exact Happ|].
  intros (toolMsgs & final & Heq). rewrite Happ in Heq.
  destruct toolMsgs; discriminate Heq.
Qed.

(** C1, witness: "draw a cat" with both requests answered. *)
Lemma tool_pass_batch_witness :
  let w := script [completion (assistantCalls [draw_cat]);
                   completion (assistantSays "Here is your cat.")] in
  let st' := handleSendMessage w "draw a cat" fresh in
  appends (trace st')
  = [[userMessage "draw a cat"];
     [assistantCalls [draw_cat]; cat_picture; assistantSays "Here is your cat."]]
  /\ messages st'
     = [userMessage "draw a cat"; assistantCalls [draw_cat]; cat_picture;
        assistantSays "Here is your cat."].
Proof.
  intros w st'.
  edestruct (tool_pass_batch w "draw a cat" fresh "sk-test"
               (assistantCalls [draw_cat]) draw_cat []
               (completed (assistantCalls [draw_cat]))
               (completed (assistantSays "Here is your cat."))
               (assistantSays "Here is your cat.") [cat_picture])
    as (Ha & Hm & _).
  - vm_compute. reflexivity.
  - reflexivity.
  - vm_compute. reflexivity.
  - vm_compute. reflexivity.
  - reflexivity.
  - repeat constructor.
  - vm_compute. reflexivity.
  - vm_compute. reflexivity.
  - split; [exact Ha|exact Hm].
Defined.

(** C7, counterexample: an undeclared capability called with an empty
    payload. Its execution throws the parse error instead of giving the
    fixed text, the second request is never issued and the pass ends in
    the warning message. *)
Lemma unknown_capability_needs_parsed_payload :
  let w := script [completion (assistantCalls [get_weather_empty]);
                   completion (assistantSays "It is sunny.")] in
  let st' := handleSendMessage w "weather?" fresh in
  ~ In (fn_name (tc_function get_weather_empty)) declared
  /\ executeTool get_weather_empty = inl Sample.syntax_error
  /\ length (fetches (trace st')) = 1%nat
  /\ appends (trace st')
     = [[userMessage "weather?"]; [errorMessage Sample.syntax_error]].
Proof.
  intros w st'.
  split; [vm_compute; intros [H|[H|[]]]; discriminate H|].
  split; [vm_compute; reflexivity|].
  split; vm_compute; reflexivity.
Qed.

(** C7, witness: the same capability with the payload [{}]. *)
Lemma unknown_capability_is_data_witness :
  let w := script [completion (assistantCalls [get_weather]);
                   completion (assistantSays "I cannot check the weather.")] in
  let st' := handleSendMessage w "weather?" fresh in
  executeTool get_weather = inr weather_unknown
  /\ appends (trace st')
     = [[userMessage "weather?"];
        [assistantCalls [get_weather]; weather_unknown;
         assistantSays "I cannot check the weather."]].
Proof.
  intros w st'.
  destruct (unknown_capability_is_data w "weather?" fresh) as [Hexec Hpass].
  split.
  - apply (Hexec get_weather (Sample.JObject [])); [|reflexivity].
    vm_compute. intros [H|[H|[]]]; discriminate H.
  - edestruct (Hpass "sk-test" (assistantCalls [get_weather]) get_weather []
                 (completed (assistantCalls [get_weather]))
                 (completed (assistantSays "I cannot check the weather."))
                 (assistantSays "I cannot check the weather.") [weather_unknown])
      as (_ & _ & Ha & _).
    + vm_compute. reflexivity.
    + reflexivity.
    + vm_compute. reflexivity.
    + vm_compute. reflexivity.
    + reflexivity.
    + repeat constructor.
    + vm_compute. reflexivity.
    + vm_compute. reflexivity.
    + exact Ha.
Defined.

End Samples.

Section Divergences.
Import Scenario.

(** C5. The request forwards a system message found in the history: it
    comes second, after the composed one, so the payload carries two
    system messages. Nothing of the history is left out. *)
Theorem stale_system_message_is_forwarded :
  let stale := {| role := system; content := "an older directive";
                  tool_calls := None; tool_call_id := None; name := None |} in
  let history := [stale; userMessage "hi"] in
  let payload := req_messages (MistralService.request history Explicativo "sk-test") in
  payload
  = [ {| role := system; content := MistralService.getSystemPrompt Explicativo;
         tool_calls := None; tool_call_id := None; name := None |};
      stale; userMessage "hi" ]
  /\ length (filter (fun m => role m = system) payload) = 2%nat.
Proof. split; reflexivity. Qed.

(** C8. A 502 answer whose body is not JSON: [response.json()] rejects,
    and [sendMessage] throws that rejection. The error thrown carries
    neither a message of the server nor the status text. *)
Theorem undecodable_error_body_escapes :
  let rejection := Error "Unexpected token < in JSON at position 0" in
  let gateway := {| status := 502; statusText := "Bad Gateway";
                    json := inl rejection |} in
  let w := script [inr gateway] in
  ok gateway = false
  /\ status gateway <> 401
  /\ fst (MistralService.sendMessage w [userMessage "hi"] Explicativo "sk-test" fresh)
     = inl rejection
  /\ rejection <> Error "Erro API Mistral: Bad Gateway".
Proof.
  intros rejection gateway w.
  split; [reflexivity|]. split; [discriminate|].
  split; [vm_compute; reflexivity|discriminate].
Qed.

(** C9. A batch of three messages saved within one millisecond: the three
    records carry the same [created_at]. Listing them in the opposite
    order is then an ascending order by [created_at] too, and a mirror
    that answers with it makes [loadChatHistory] show the batch
    backwards, the tool result before the message that asked for it. *)
Theorem equal_instants_lose_the_order :
  let w := script_newest_first [] in
  let batch := [assistantCalls [draw_cat]; cat_picture;
                assistantSays "Here is your cat."] in
  let saved := saveMessageToHistory w batch (initialApp ∅ (Some [])) in
  exists r1 r2 r3,
    supabase saved = Some [r1; r2; r3]
    /\ map row_content [r1; r2; r3] = map content batch
    /\ created_at r1 = created_at r2 /\ created_at r2 = created_at r3
    /\ Sorted by_created_at [r3; r2; r1]
    /\ Permutation [r1; r2; r3] [r3; r2; r1]
    /\ select_messages w [r1; r2; r3] = QueryResult (Some [r3; r2; r1]) None
    /\ map content (messages (loadChatHistory w (initialApp ∅ (supabase saved))))
       = map content (rev batch).
Proof.
  intros w batch saved. do 3 eexists.
  split; [vm_compute; reflexivity|].
  split; [reflexivity|].
  split; [reflexivity|]. split; [reflexivity|].
  split.
  { repeat constructor; unfold by_created_at; simpl; lia. }
  split.
  { apply Permutation_rev. }
  split; vm_compute; reflexivity.
Qed.

End Divergences.

(** * Further properties of the code *)

(** ** MistralService.sendMessage *)

Section ServiceFacts.
Context `{R : Runtime}.

Lemma map_validMessage history :
  map MistralService.validMessage history = history.
Proof.
  induction history as [|m history IH]; [reflexivity|].
  simpl. rewrite IH. destruct m; reflexivity.
Qed.

(** X1. One call of [sendMessage] issues exactly one request, whatever
    comes back, and touches nothing else: the log, the busy flag and both
    stores are as before. The request carries the composed system message
    followed by the whole history as given, the two declared tools, and
    the key as a bearer token. *)
Theorem sendMessage_issues_one_request w history mode key st :
  let out := MistralService.sendMessage w history mode key st in
  let req := MistralService.request history mode key in
  trace (snd out) = trace st ++ [Fetch req]
  /\ messages (snd out) = messages st
  /\ isLoading (snd out) = isLoading st
  /\ localStorage (snd out) = localStorage st
  /\ supabase (snd out) = supabase st
  /\ req_messages req
     = {| role := system; content := MistralService.getSystemPrompt mode;
          tool_calls := None; tool_call_id := None; name := None |} :: history
  /\ map schema_name (req_tools req) = ["generate_image"; "web_search"]
  /\ authorization req = "Bearer " +:+ key.
Proof.
  intros out req. subst out. rewrite sendMessage_eq. cbn [snd].
  repeat split.
  unfold req, MistralService.request, MistralService.messagesPayload.
  cbn [req_messages]. rewrite map_validMessage. reflexivity.
Qed.

(** X2. A 401 answer becomes the invalid-key error whatever its body is:
    the body is not read. *)
Theorem unauthorized_is_invalid_key w history mode key st response :
  fetch w (length (fetches (trace st))) (MistralService.request history mode key)
  = inr response ->
  status response = 401 ->
  fst (MistralService.sendMessage w history mode key st)
  = inl (Error "Chave de API inválida. Verifique suas configurações.").
Proof.
  intros Hfetch Hstatus. rewrite sendMessage_eq. cbn [fst]. rewrite Hfetch.
  cbn [mbind Exc_bind]. unfold MistralService.readResponse, ok.
  rewrite Hstatus. reflexivity.
Qed.


(** X4. A success answer with at least one choice: [sendMessage] returns
    the first choice's message as it is, tool calls included, and looks
    at no other choice. *)
Theorem success_returns_first_choice w history mode key st response data choice others :
  fetch w (length (fetches (trace st))) (MistralService.request history mode key)
  = inr response ->
  ok response = true ->
  json response = inr (Some data) ->
  body_choices data = Some (choice :: others) ->
  fst (MistralService.sendMessage w history mode key st) = inr (choice_message choice).
Proof.
  intros Hfetch Hok Hjson Hchoices. rewrite sendMessage_eq. cbn [fst]. rewrite Hfetch.
  cbn [mbind Exc_bind]. unfold MistralService.readResponse.
  rewrite Hok. cbn [negb]. rewrite Hjson. cbn [mbind Exc_bind].
  rewrite Hchoices. reflexivity.
Qed.

(** X5. A success answer without a first choice (no [choices], or an
    empty list) returns no message: reading the choice throws. *)
Theorem success_without_choice_throws w history mode key st response data :
  fetch w (length (fetches (trace st))) (MistralService.request history mode key)
  = inr response ->
  ok response = true ->
  json response = inr (Some data) ->
  body_choices data = None \/ body_choices data = Some [] ->
  exists e, fst (MistralService.sendMessage w history mode key st) = inl e.
Proof.
  intros Hfetch Hok Hjson Hchoices. rewrite sendMessage_eq. cbn [fst]. rewrite Hfetch.
  cbn [mbind Exc_bind]. unfold MistralService.readResponse.
  rewrite Hok. cbn [negb]. rewrite Hjson. cbn [mbind Exc_bind].
  destruct Hchoices as [->| ->]; eexists; reflexivity.
Qed.

End ServiceFacts.

Section ServiceSamples.
Import Scenario.

Lemma unauthorized_is_invalid_key_witness :
  fst (MistralService.sendMessage
         (script [inr {| status := 401; statusText := "Unauthorized";
                         json := inl (Error "Unexpected end of JSON input") |}])
         [userMessage "hi"] Explicativo "sk-test" fresh)
  = inl (Error "Chave de API inválida. Verifique suas configurações.").
Proof.
  eapply unauthorized_is_invalid_key; [vm_compute; reflexivity|reflexivity].
Defined.


Lemma success_returns_first_choice_witness :
  fst (MistralService.sendMessage
         (script [completion (assistantCalls [draw_cat])])
         [userMessage "draw a cat"] Explicativo "sk-test" fresh)
  = inr (assistantCalls [draw_cat]).
Proof.
  eapply (success_returns_first_choice _ _ _ _ _
            (completed (assistantCalls [draw_cat])) _
            {| choice_message := assistantCalls [draw_cat] |} []);
    reflexivity.
Defined.

Lemma success_without_choice_throws_witness :
  exists e,
    fst (MistralService.sendMessage
           (script [inr {| status := 200; statusText := "OK";
                           json := inr (Some {| body_message := None;
                                                body_choices := Some [] |}) |}])
           [userMessage "hi"] Explicativo "sk-test" fresh)
    = inl e.
Proof.
  eapply success_without_choice_throws;
    [reflexivity|reflexivity|reflexivity|right; reflexivity].
Defined.

End ServiceSamples.

(** ** handleSendMessage *)

Section PassProperties.
Context `{R : Runtime}.





(** X7. Without a usable key ([API_KEY] unset or empty) an accepted pass
    issues no request at all: the user message is followed by the
    warning that the key was not found. *)
Theorem missing_key_issues_no_request w userInput st :
  rejected userInput st = false ->
  API_KEY w = None \/ API_KEY w = Some "" ->
  let st' := handleSendMessage w userInput st in
  fetches (trace st') = fetches (trace st)
  /\ messages st'
     = messages st ++ [userMessage userInput;
                       errorMessage (Error "Chave API Mistral não encontrada.")].
Proof.
  intros Hacc Hkey st'.
  assert (Hreq : requireApiKey w = inl (Error "Chave API Mistral não encontrada.")).
  { unfold requireApiKey. destruct Hkey as [-> | ->]; reflexivity. }
  assert (Hst' : st' = setIsLoading false
            (saveMessageToHistory w [errorMessage (Error "Chave API Mistral não encontrada.")]
               (setIsLoading true (saveMessageToHistory w [userMessage userInput] st)))).
  { unfold st', handleSendMessage. rewrite Hacc.
    unfold tryBlock, mbind, M_bind, liftExc. rewrite Hreq. reflexivity. }
  clearbody st'. subst st'.
  rewrite !setIsLoading_trace, !setIsLoading_messages, !save_fetches, !save_messages,
    setIsLoading_trace, setIsLoading_messages, save_fetches, save_messages,
    <- app_assoc.
  split; reflexivity.
Qed.

(** X8. A first answer without tool calls, be the list absent or empty,
    ends the pass after one request: the answer is appended alone. *)
Theorem plain_pass w userInput st key r1 a :
  rejected userInput st = false ->
  requireApiKey w = inr key ->
  let userMsg := userMessage userInput in
  let req1 := MistralService.request (messages st ++ [userMsg]) (conversationMode st) key in
  fetch w (length (fetches (trace st))) req1 = inr r1 ->
  MistralService.readResponse r1 = inr a ->
  tool_calls a = None \/ tool_calls a = Some [] ->
  let st' := handleSendMessage w userInput st in
  messages st' = messages st ++ [userMsg; a]
  /\ appends (trace st') = appends (trace st) ++ [[userMsg]; [a]]
  /\ fetches (trace st') = fetches (trace st) ++ [req1].
Proof.
  intros Hacc Hkey userMsg req1 Hf1 Hr1 Hcalls st'.
  set (begun := setIsLoading true (saveMessageToHistory w [userMsg] st)).
  assert (Hst' : st' = setIsLoading false
            (saveMessageToHistory w [a] (emit (Fetch req1) begun))).
  { unfold st', handleSendMessage. rewrite Hacc. fold userMsg begun.
    unfold tryBlock, mbind, M_bind, liftExc, perform.
    rewrite Hkey, sendMessage_eq.
    unfold begun at 1. rewrite begun_fetches. fold req1. rewrite Hf1.
    cbn [mbind Exc_bind]. rewrite Hr1.
    destruct Hcalls as [-> | ->]; reflexivity. }
  clearbody st'. subst st'.
  rewrite setIsLoading_messages, setIsLoading_trace, save_messages, save_appends,
    save_fetches, emit_messages, emit_trace, appends_app, fetches_app.
  unfold begun. rewrite setIsLoading_messages, setIsLoading_trace, save_messages,
    save_appends, save_fetches.
  cbn [appends fetches]. rewrite app_nil_r, <- !app_assoc.
  repeat split.
Qed.

(** X9. A tool call of a declared capability can throw though its payload
    parses: for [generate_image], when reading [prompt] off the parsed
    payload throws (the payload is [null]). The pass then ends like any
    failed one, after a single request, with none of the tool messages
    in the log. *)
Theorem parsed_payload_can_still_throw w userInput st key r1 a pre bad post msgs args e :
  rejected userInput st = false ->
  requireApiKey w = inr key ->
  let userMsg := userMessage userInput in
  let req1 := MistralService.request (messages st ++ [userMsg]) (conversationMode st) key in
  fetch w (length (fetches (trace st))) req1 = inr r1 ->
  MistralService.readResponse r1 = inr a ->
  tool_calls a = Some (pre ++ bad :: post) ->
  Forall2 (fun call m => executeTool call = inr m) pre msgs ->
  fn_name (tc_function bad) = "generate_image" ->
  JSON_parse (fn_arguments (tc_function bad)) = inr args ->
  get_property args "prompt" = inl e ->
  let st' := handleSendMessage w userInput st in
  messages st' = messages st ++ [userMsg; errorMessage e]
  /\ fetches (trace st') = fetches (trace st) ++ [req1].
Proof.
  intros Hacc Hkey userMsg req1 Hf1 Hr1 Hcalls Hpre Hname Hparse Hget st'.
  assert (Hbad : executeTool bad = inl e).
  { unfold executeTool. rewrite Hparse. cbn [mbind Exc_bind].
    rewrite Hname. cbn [String.eqb Ascii.eqb Bool.eqb]. rewrite Hget. reflexivity. }
  pose proof (tool_pass_throws w userInput st key a pre bad post r1 msgs e
                Hkey Hf1 Hr1 Hcalls Hpre Hbad) as Htry.
  cbv zeta in Htry. fold userMsg req1 in Htry.
  assert (Hst' : st' = setIsLoading false
            (saveMessageToHistory w [errorMessage e]
               (emit (Fetch req1)
                  (setIsLoading true (saveMessageToHistory w [userMsg] st))))).
  { unfold st', handleSendMessage. rewrite Hacc. fold userMsg. rewrite Htry. reflexivity. }
  clearbody st'. subst st'.
  rewrite setIsLoading_messages, setIsLoading_trace, save_messages, save_fetches,
    emit_messages, emit_trace, fetches_app, setIsLoading_messages, setIsLoading_trace,
    save_messages, save_fetches, <- app_assoc.
  split; reflexivity.
Qed.

End PassProperties.

Section PassSamples.
Import Scenario.

Lemma missing_key_issues_no_request_witness :
  let w := {| API_KEY := Some ""; fetch := fetch (script []); now := now (script []);
              select_messages := select_messages (script []);
              insert_accepted := insert_accepted (script []) |} in
  let st' := handleSendMessage w "hello" fresh in
  fetches (trace st') = []
  /\ messages st'
     = [userMessage "hello"; errorMessage (Error "Chave API Mistral não encontrada.")].
Proof.
  intros w st'.
  assert (Hacc : rejected "hello" fresh = false) by (vm_compute; reflexivity).
  apply (missing_key_issues_no_request w "hello" fresh Hacc).
  right. reflexivity.
Defined.

Lemma plain_pass_witness :
  let answer := {| role := assistant; content := "Olá!"; tool_calls := Some [];
                   tool_call_id := None; name := None |} in
  let st' := handleSendMessage (script [completion answer]) "oi" fresh in
  messages st' = [userMessage "oi"; answer]
  /\ appends (trace st') = [[userMessage "oi"]; [answer]]
  /\ fetches (trace st')
     = [MistralService.request [userMessage "oi"] Explicativo "sk-test"].
Proof.
  intros answer st'.
  assert (Hacc : rejected "oi" fresh = false) by (vm_compute; reflexivity).
  apply (plain_pass (script [completion answer]) "oi" fresh "sk-test"
           (completed answer) answer Hacc);
    [reflexivity|reflexivity|vm_compute; reflexivity|right; reflexivity].
Defined.

Lemma parsed_payload_can_still_throw_witness :
  let bad := call "call_1" "generate_image" "null" in
  let w := script [completion (assistantCalls [bad]);
                   completion (assistantSays "never asked for")] in
  let st' := handleSendMessage w "draw" fresh in
  messages st'
  = [userMessage "draw";
     errorMessage (Error "Cannot read properties of null (reading 'prompt')")]
  /\ fetches (trace st')
     = [MistralService.request [userMessage "draw"] Explicativo "sk-test"].
Proof.
  intros bad w st'.
  assert (Hacc : rejected "draw" fresh = false) by (vm_compute; reflexivity).
  apply (parsed_payload_can_still_throw (R := Sample.runtime) w "draw" fresh "sk-test"
           (completed (assistantCalls [bad])) (assistantCalls [bad]) [] bad [] []
           Sample.JNull (Error "Cannot read properties of null (reading 'prompt')") Hacc).
  - reflexivity.
  - reflexivity.
  - vm_compute. reflexivity.
  - reflexivity.
  - constructor.
  - reflexivity.
  - reflexivity.
  - reflexivity.
Defined.

End PassSamples.

(** ** The log as a function of the conversation *)

Section LogFunction.
Context `{R : Runtime}.

Lemma pass_log w userInput st :
  rejected userInput st = false ->
  messages (handleSendMessage w userInput st)
  = messages st
    ++ userMessage userInput
       :: pass_batch w (messages st) (userMessage userInput) (conversationMode st)
            (length (fetches (trace st))).
Proof.
  intros Hacc.
  set (userMsg := userMessage userInput).
  set (begun := setIsLoading true (saveMessageToHistory w [userMsg] st)).
  assert (Hst' : exists stX,
            messages stX = messages st ++ [userMsg]
            /\ handleSendMessage w userInput st
               = setIsLoading false
                   (saveMessageToHistory w
                      (pass_batch w (messages st) userMsg (conversationMode st)
                         (length (fetches (trace st)))) stX)).
  { assert (Hbegun : messages begun = messages st ++ [userMsg]).
    { unfold begun. rewrite setIsLoading_messages, save_messages. reflexivity. }
    unfold handleSendMessage. rewrite Hacc. fold userMsg begun.
    unfold tryBlock, pass_batch, mbind at 1 2 3 4, M_bind, liftExc, perform.
    destruct (requireApiKey w) as [e|key].
    { exists begun. split; [exact Hbegun|reflexivity]. }
    rewrite sendMessage_eq. unfold begun at 1. rewrite begun_fetches. fold begun.
    destruct (fetch w _ _ ≫= MistralService.readResponse) as [e|a].
    { eexists. split; [|reflexivity]. rewrite emit_messages. exact Hbegun. }
    destruct (tool_calls a) as [[|c cs]|].
    - eexists. split; [|reflexivity]. rewrite emit_messages. exact Hbegun.
    - destruct (runTools _ _ _) as [e|lists].
      { eexists. split; [|reflexivity]. rewrite emit_messages. exact Hbegun. }
      rewrite sendMessage_eq, emit_Fetch_count.
      unfold begun at 1. rewrite begun_fetches. fold begun.
      destruct (fetch w _ _ ≫= MistralService.readResponse) as [e|final].
      + eexists. split; [|reflexivity]. rewrite !emit_messages. exact Hbegun.
      + eexists. split; [|reflexivity]. rewrite !emit_messages. exact Hbegun.
    - eexists. split; [|reflexivity]. rewrite emit_messages. exact Hbegun. }
  destruct Hst' as (stX & HstX & ->).
  rewrite setIsLoading_messages, save_messages, HstX, <- app_assoc. reflexivity.
Qed.


End LogFunction.

Section LogSamples.
Import Scenario.


End LogSamples.

(** ** The two stores *)

Section StoreProperties.
Context `{R : Runtime}.

(** When the primary gives nothing, [loadChatHistory] at mount is the
    local fallback, run after the select if there is a client. *)
Lemma load_falls_back w ls sb :
  primary_unavailable w sb ->
  loadChatHistory w (initialApp ls sb)
  = loadLocal (emit_all (match sb with Some _ => [RemoteSelect] | None => [] end)
                 (initialApp ls sb)).
Proof.
  intros Hun. unfold loadChatHistory. cbn [supabase initialApp].
  destruct sb as [table|]; [|reflexivity]. cbn [primary_unavailable] in Hun.
  cbn [emit_all foldl].
  destruct Hun as [(e & ->) | [(data & err & ->) | [-> | [-> | (rows & e & -> & Hbad)]]]];
    try reflexivity.
  - destruct data as [[|d ds]|]; reflexivity.
  - destruct rows as [|d ds]; [reflexivity|]. rewrite Hbad. reflexivity.
Qed.

(** X11. Round trip through the local store. After [saveMessageToHistory]
    the local record is the text of the whole log; a later mount that
    gets nothing from the mirror reads the log back from it, provided
    the text of the log decodes to the log and is not the empty text. *)
Theorem local_round_trip w w' batch st sb :
  let saved := saveMessageToHistory w batch st in
  let log := messages st ++ batch in
  parse_messages (stringify_messages log) = inr log ->
  stringify_messages log <> "" ->
  primary_unavailable w' sb ->
  messages saved = log
  /\ messages (loadChatHistory w' (initialApp (localStorage saved) sb)) = log.
Proof.
  intros saved log Hparse Hne Hun. split; [reflexivity|].
  rewrite (load_falls_back _ _ _ Hun), loadLocal_messages.
  unfold secondary_content, saved. rewrite save_local, lookup_insert_eq.
  fold log. destruct (String.eqb_spec (stringify_messages log) "") as [Heq|_];
    [contradiction|].
  rewrite Hparse. reflexivity.
Qed.

Lemma save_supabase w batch st table :
  supabase st = Some table ->
  supabase (saveMessageToHistory w batch st)
  = Some (if insert_accepted w (toRecords w (clock_reads st) batch)
          then table ++ toRecords w (clock_reads st) batch else table).
Proof.
  intros Htable. unfold saveMessageToHistory, insertRecords. simpl.
  rewrite Htable. simpl. destruct (insert_accepted _ _); simpl; [reflexivity|exact Htable].
Qed.

Lemma formatRows_app rows1 : forall rows2 ms1 ms2,
  formatRows rows1 = inr ms1 ->
  formatRows rows2 = inr ms2 ->
  formatRows (rows1 ++ rows2) = inr (ms1 ++ ms2).
Proof.
  induction rows1 as [|d rows1 IH]; intros rows2 ms1 ms2 H1 H2.
  - inversion H1; subst. exact H2.
  - simpl in H1. apply Exc_bind_inr in H1 as (m & Hm & H1).
    apply Exc_bind_inr in H1 as (ms & Hms & H1). inversion H1; subst.
    simpl. rewrite Hm. cbn [mbind Exc_bind]. rewrite (IH _ _ _ Hms H2). reflexivity.
Qed.

Lemma formatRows_toRecords w batch : forall n,
  (forall m calls, In m batch -> tool_calls m = Some calls ->
     stringify_tool_calls calls <> ""
     /\ parse_tool_calls (stringify_tool_calls calls) = inr calls) ->
  formatRows (toRecords w n batch) = inr (map forget_links batch).
Proof.
  induction batch as [|m batch IH]; intros n Hcodec; [reflexivity|].
  simpl. rewrite (IH (S n)); [|intros m' calls Hin; apply Hcodec; right; exact Hin].
  unfold formatRow. cbn [row_tool_calls row_role row_content].
  destruct (tool_calls m) as [calls|] eqn:Hcalls.
  - destruct (Hcodec m calls (or_introl eq_refl) Hcalls) as [Hne Hparse].
    destruct (String.eqb_spec (stringify_tool_calls calls) "") as [Heq|_];
      [contradiction|].
    rewrite Hparse. cbn [mbind Exc_bind]. unfold forget_links. rewrite Hcalls.
    reflexivity.
  - cbn [mbind Exc_bind]. unfold forget_links. rewrite Hcalls. reflexivity.
Qed.

Lemma toRecords_contents w batch : forall n,
  map row_content (toRecords w n batch) = map content batch.
Proof.
  induction batch as [|m batch IH]; intros n; [reflexivity|].
  simpl. rewrite IH. reflexivity.
Qed.

(** X12. Round trip through the mirror. A batch the mirror accepts is
    added to the table as one record per message, in order; when the
    mirror later lists its rows in that order, the log shown at mount
    is the earlier rows' messages followed by the batch with every
    [tool_call_id] and [name] gone: a tool result no longer names the
    call it answers. Roles, contents and tool calls come back, the tool
    calls provided their text decodes to them and is not empty. *)
Theorem mirror_round_trip_forgets_links w w' batch st table earlier ls :
  supabase st = Some table ->
  let records := toRecords w (clock_reads st) batch in
  let saved := saveMessageToHistory w batch st in
  insert_accepted w records = true ->
  select_messages w' (table ++ records) = QueryResult (Some (table ++ records)) None ->
  formatRows table = inr earlier ->
  (forall m calls, In m batch -> tool_calls m = Some calls ->
     stringify_tool_calls calls <> ""
     /\ parse_tool_calls (stringify_tool_calls calls) = inr calls) ->
  batch <> [] ->
  supabase saved = Some (table ++ records)
  /\ map row_content records = map content batch
  /\ messages (loadChatHistory w' (initialApp ls (supabase saved)))
     = earlier ++ map forget_links batch.
Proof.
  intros Htable records saved Hins Hsel Hearlier Hcodec Hne.
  assert (Hsaved : supabase saved = Some (table ++ records)).
  { unfold saved. rewrite (save_supabase _ _ _ _ Htable). fold records.
    rewrite Hins. reflexivity. }
  split; [exact Hsaved|]. split.
  { apply toRecords_contents. }
  rewrite Hsaved. unfold loadChatHistory. cbn [supabase initialApp]. rewrite Hsel.
  pose proof (formatRows_app _ _ _ _ Hearlier
                (formatRows_toRecords w batch (clock_reads st) Hcodec)) as Hrows.
  fold records in Hrows.
  destruct (table ++ records) as [|d ds] eqn:Hall.
  { apply app_eq_nil in Hall as [_ Hall]. unfold records in Hall.
    destruct batch; [contradiction|discriminate]. }
  rewrite Hrows. reflexivity.
Qed.

End StoreProperties.

Section OrderProperties.
Context `{R : Runtime}.

Lemma toRecords_instants w batch : forall n,
  map created_at (toRecords w n batch) = map (now w) (seq n (length batch)).
Proof.
  induction batch as [|m batch IH]; intros n; [reflexivity|].
  simpl. rewrite IH. reflexivity.
Qed.

Lemma strict_clock_lt w :
  (forall i, now w i < now w (S i)) ->
  forall i j, (i < j)%nat -> now w i < now w j.
Proof.
  intros Hstep i j Hij. induction Hij as [|j Hij IH].
  - apply Hstep.
  - specialize (Hstep j). lia.
Qed.

Lemma toRecords_later w batch : forall n k,
  (forall i, now w i < now w (S i)) ->
  (k < n)%nat ->
  Forall (fun r => now w k < created_at r) (toRecords w n batch).
Proof.
  induction batch as [|m batch IH]; intros n k Hstep Hkn; [constructor|].
  simpl. constructor.
  - cbn [created_at]. apply strict_clock_lt; assumption.
  - apply IH; [exact Hstep|lia].
Qed.

Lemma toRecords_strictly_sorted w batch : forall n,
  (forall i, now w i < now w (S i)) ->
  StronglySorted strictly_by_created_at (toRecords w n batch).
Proof.
  induction batch as [|m batch IH]; intros n Hstep; [constructor|].
  simpl. constructor; [apply IH; exact Hstep|].
  apply (toRecords_later w batch (S n) n Hstep). lia.
Qed.

(** Rows without ties have one ascending order only. *)
Lemma ascending_order_unique (l : list Row) : forall l',
  StronglySorted strictly_by_created_at l ->
  Sorted by_created_at l' ->
  Permutation l l' ->
  l' = l.
Proof.
  induction l as [|a l IH]; intros l' Hstrict Hsorted Hperm.
  - apply Permutation_nil in Hperm. exact Hperm.
  - destruct l' as [|b l'].
    { apply Permutation_sym, Permutation_nil in Hperm. discriminate. }
    apply StronglySorted_inv in Hstrict as [Hstrict Hmin].
    assert (Hsorted' : StronglySorted by_created_at (b :: l')).
    { apply Sorted_StronglySorted; [|exact Hsorted].
      intros x y z Hxy Hyz. unfold by_created_at in *. lia. }
    apply StronglySorted_inv in Hsorted' as [Hsorted' Hmin'].
    assert (Hb : In b (a :: l)).
    { apply (Permutation_in b (Permutation_sym Hperm)). left. reflexivity. }
    assert (Ha : In a (b :: l')).
    { apply (Permutation_in a Hperm). left. reflexivity. }
    assert (Heq : b = a).
    { destruct Hb as [Hb|Hb]; [symmetry; exact Hb|].
      destruct Ha as [Ha|Ha]; [exact Ha|].
      rewrite Forall_forall in Hmin, Hmin'.
      apply list_elem_of_In in Hb, Ha.
      specialize (Hmin b Hb). specialize (Hmin' a Ha).
      unfold strictly_by_created_at, by_created_at in *. lia. }
    subst b. f_equal. apply IH.
    + exact Hstrict.
    + apply Sorted_inv in Hsorted. tauto.
    + apply (Permutation_cons_inv Hperm).
Qed.

(** X13. When the clock advances between any two readings, the records
    of a batch carry strictly increasing instants, and the append order
    is the only ascending order of them: whatever ascending listing the
    mirror answers with is the batch in the order it was appended. *)
Theorem advancing_clock_keeps_the_order w n batch listing :
  (forall i, now w i < now w (S i)) ->
  Permutation (toRecords w n batch) listing ->
  Sorted by_created_at listing ->
  StronglySorted strictly_by_created_at (toRecords w n batch)
  /\ listing = toRecords w n batch.
Proof.
  intros Hstep Hperm Hsorted.
  pose proof (toRecords_strictly_sorted w batch n Hstep) as Hstrict.
  split; [exact Hstrict|].
  apply ascending_order_unique; assumption.
Qed.

(** X14. [loadChatHistory] only reads: from any state, it leaves both
    stores, the busy flag and the mode as they are, issues no request
    and appends nothing; and either it leaves the log and the welcome
    screen as they are, or it turns the welcome screen off. *)
Theorem load_only_reads w st :
  let st' := loadChatHistory w st in
  localStorage st' = localStorage st
  /\ supabase st' = supabase st
  /\ isLoading st' = isLoading st
  /\ conversationMode st' = conversationMode st
  /\ fetches (trace st') = fetches (trace st)
  /\ appends (trace st') = appends (trace st)
  /\ ((messages st' = messages st /\ showWelcome st' = showWelcome st)
      \/ showWelcome st' = false).
Proof.
  assert (Hlocal : forall s,
    localStorage (loadLocal s) = localStorage s
    /\ supabase (loadLocal s) = supabase s
    /\ isLoading (loadLocal s) = isLoading s
    /\ conversationMode (loadLocal s) = conversationMode s
    /\ fetches (trace (loadLocal s)) = fetches (trace s)
    /\ appends (trace (loadLocal s)) = appends (trace s)
    /\ ((messages (loadLocal s) = messages s /\ showWelcome (loadLocal s) = showWelcome s)
        \/ showWelcome (loadLocal s) = false)).
  { intros s. unfold loadLocal. rewrite emit_localStorage.
    assert (Hf : fetches (trace (emit (LocalGet history_key) s)) = fetches (trace s)).
    { rewrite emit_trace, fetches_app. apply app_nil_r. }
    assert (Ha : appends (trace (emit (LocalGet history_key) s)) = appends (trace s)).
    { rewrite emit_trace, appends_app. apply app_nil_r. }
    destruct (localStorage s !! history_key) as [saved|];
      [destruct (String.eqb saved ""); [|destruct (parse_messages saved)]|];
      repeat split; try exact Hf; try exact Ha;
      first [left; split; reflexivity | right; reflexivity]. }
  intros st'. subst st'. unfold loadChatHistory.
  destruct (supabase st) as [table|] eqn:Htable.
  - assert (Hf : fetches (trace (emit RemoteSelect st)) = fetches (trace st)).
    { rewrite emit_trace, fetches_app. apply app_nil_r. }
    assert (Ha : appends (trace (emit RemoteSelect st)) = appends (trace st)).
    { rewrite emit_trace, appends_app. apply app_nil_r. }
    assert (Hfall :
      localStorage (loadLocal (emit RemoteSelect st)) = localStorage st
      /\ supabase (loadLocal (emit RemoteSelect st)) = Some table
      /\ isLoading (loadLocal (emit RemoteSelect st)) = isLoading st
      /\ conversationMode (loadLocal (emit RemoteSelect st)) = conversationMode st
      /\ fetches (trace (loadLocal (emit RemoteSelect st))) = fetches (trace st)
      /\ appends (trace (loadLocal (emit RemoteSelect st))) = appends (trace st)
      /\ ((messages (loadLocal (emit RemoteSelect st)) = messages st
           /\ showWelcome (loadLocal (emit RemoteSelect st)) = showWelcome st)
          \/ showWelcome (loadLocal (emit RemoteSelect st)) = false)).
    { destruct (Hlocal (emit RemoteSelect st)) as (H1 & H2 & H3 & H4 & H5 & H6 & H7).
      rewrite H1, H2, H3, H4, H5, H6, Hf, Ha.
      repeat split; try exact Htable. exact H7. }
    destruct (select_messages w table) as [e|[[|d ds]|] [err|]]; try exact Hfall.
    destruct (formatRows (d :: ds)); [exact Hfall|].
    repeat split; try exact Htable; try exact Hf; try exact Ha.
    right. reflexivity.
  - destruct (Hlocal st) as (H1 & H2 & H3 & H4 & H5 & H6 & H7).
    rewrite H2 at 1. repeat split; assumption.
Qed.

(** X15. Clearing does not survive a reload when the mirror is in use.
    The log is empty after [handleClearChat], but the next mount gets
    the conversation back from the mirror, whose rows the clearing did
    not touch. Without a mirror, the next mount finds nothing and shows
    the welcome screen over an empty log. *)
Theorem cleared_chat_returns_from_mirror w st :
  let cleared := handleClearChat true st in
  let reloaded :=
    loadChatHistory w (initialApp (localStorage cleared) (supabase cleared)) in
  messages cleared = []
  /\ (forall table d ds formatted,
        supabase st = Some table ->
        select_messages w table = QueryResult (Some (d :: ds)) None ->
        formatRows (d :: ds) = inr formatted ->
        messages reloaded = formatted /\ formatted <> [])
  /\ (supabase st = None ->
      messages reloaded = [] /\ showWelcome reloaded = true).
Proof.
  intros cleared reloaded.
  assert (Hsb : supabase cleared = supabase st) by reflexivity.
  assert (Hls : localStorage cleared !! history_key = None).
  { unfold cleared. cbn. apply lookup_delete_eq. }
  split; [reflexivity|]. split.
  - intros table d ds formatted Htable Hsel Hrows.
    unfold reloaded, loadChatHistory. cbn [supabase initialApp].
    rewrite Hsb, Htable, Hsel, Hrows. split; [reflexivity|].
    simpl in Hrows. apply Exc_bind_inr in Hrows as (m & _ & Hrows).
    apply Exc_bind_inr in Hrows as (ms & _ & Hrows). inversion Hrows. discriminate.
  - intros Hnone. unfold reloaded, loadChatHistory. cbn [supabase initialApp].
    rewrite Hsb, Hnone. unfold loadLocal. rewrite emit_localStorage.
    cbn [localStorage initialApp]. rewrite Hls. split; reflexivity.
Qed.

End OrderProperties.

Section StoreSamples.
Import Scenario.

Lemma local_round_trip_witness :
  let batch := [assistantCalls [draw_cat]; cat_picture; assistantSays "Here is your cat."] in
  let st := setMessages [userMessage "draw a cat"] fresh in
  messages (loadChatHistory (script [])
              (initialApp (localStorage (saveMessageToHistory (script []) batch st)) None))
  = userMessage "draw a cat" :: batch.
Proof.
  intros batch st.
  apply (local_round_trip (script []) (script []) batch st None).
  - vm_compute. reflexivity.
  - vm_compute. discriminate.
  - exact I.
Defined.

Lemma mirror_round_trip_forgets_links_witness :
  let batch := [assistantCalls [draw_cat]; cat_picture; assistantSays "Here is your cat."] in
  let st := initialApp ∅ (Some [row user "draw a cat" 1]) in
  let saved := saveMessageToHistory (script []) batch st in
  messages (loadChatHistory (script []) (initialApp ∅ (supabase saved)))
  = [userMessage "draw a cat"; assistantCalls [draw_cat];
     {| role := tool; content := content cat_picture; tool_calls := None;
        tool_call_id := None; name := None |};
     assistantSays "Here is your cat."].
Proof.
  intros batch st saved.
  edestruct (mirror_round_trip_forgets_links (script []) (script []) batch st
               [row user "draw a cat" 1] [userMessage "draw a cat"] ∅)
    as (_ & _ & Hload).
  - reflexivity.
  - reflexivity.
  - reflexivity.
  - reflexivity.
  - intros m calls [<-|[<-|[<-|[]]]] Hcalls; inversion Hcalls; subst.
    split; [vm_compute; discriminate|vm_compute; reflexivity].
  - discriminate.
  - exact Hload.
Defined.

Lemma advancing_clock_keeps_the_order_witness :
  let w := {| API_KEY := None; fetch := fetch (script []);
              now := fun n => 1762134540000 + Z.of_nat n;
              select_messages := select_messages (script []);
              insert_accepted := insert_accepted (script []) |} in
  let records := toRecords w 0 [userMessage "one"; assistantSays "two"] in
  order_newest_first records = records.
Proof.
  intros w records.
  apply (advancing_clock_keeps_the_order w 0 [userMessage "one"; assistantSays "two"]).
  - intros i. unfold w. cbn [now]. lia.
  - vm_compute. apply Permutation_refl.
  - vm_compute. repeat constructor; discriminate.
Defined.

End StoreSamples.

(** ** The view *)

Section ViewProperties.
Local Open Scope char_scope.

Lemma append_cons x (a b : string) : String x a +:+ b = String x (a +:+ b).
Proof. reflexivity. Qed.

Lemma append_nil_l (b : string) : EmptyString +:+ b = b.
Proof. reflexivity. Qed.

Lemma append_assoc (a b c : string) : (a +:+ b) +:+ c = a +:+ (b +:+ c).
Proof.
  induction a as [|x a IH]; [reflexivity|]. rewrite !append_cons, IH. reflexivity.
Qed.

Lemma append_nil_r (a : string) : a +:+ EmptyString = a.
Proof.
  induction a as [|x a IH]; [reflexivity|]. rewrite append_cons, IH. reflexivity.
Qed.

Lemma length_append (a b : string) :
  String.length (a +:+ b) = (String.length a + String.length b)%nat.
Proof.
  induction a as [|x a IH]; [reflexivity|].
  rewrite append_cons. cbn [String.length]. rewrite IH. reflexivity.
Qed.

Lemma until_sound c s : forall before after,
  until c s = Some (before, after) ->
  s = before +:+ String c after /\ has_char c before = false.
Proof.
  induction s as [|x s IH]; intros before after H; [discriminate|].
  simpl in H. destruct (Ascii.eqb_spec x c) as [->|Hne].
  - inversion H; subst. split; reflexivity.
  - destruct (until c s) as [[b a]|]; [|discriminate].
    inversion H; subst. destruct (IH b after eq_refl) as [-> Hb].
    split; [reflexivity|]. simpl. rewrite Hb.
    destruct (Ascii.eqb_spec x c); [contradiction|reflexivity].
Qed.

Lemma until_complete c before : forall after,
  has_char c before = false ->
  until c (before +:+ String c after) = Some (before, after).
Proof.
  induction before as [|x before IH]; intros after H.
  - rewrite append_nil_l. cbn [until]. rewrite Ascii.eqb_refl. reflexivity.
  - simpl in H. apply orb_false_elim in H as [Hx Hb].
    rewrite append_cons. cbn [until]. rewrite Hx, (IH after Hb). reflexivity.
Qed.

Lemma until_app c s : forall tail before after,
  until c s = Some (before, after) ->
  until c (s +:+ tail) = Some (before, after +:+ tail).
Proof.
  intros tail before after H. apply until_sound in H as [-> Hb].
  rewrite append_assoc, append_cons. apply until_complete. exact Hb.
Qed.

Lemma match_image_sound s alt src rest :
  match_image s = Some (alt, src, rest) ->
  s = source (Image alt src) +:+ rest
  /\ has_char "]" alt = false /\ has_char ")" src = false /\ src <> EmptyString.
Proof.
  unfold match_image. intros H.
  destruct s as [|c0 [|c1 s1]]; try discriminate;
    try (destruct c0 as [[] [] [] [] [] [] [] []]; discriminate).
  destruct (Ascii.eqb_spec c0 "!") as [->|Hne0];
    [|destruct c0 as [[] [] [] [] [] [] [] []]; try discriminate; contradiction].
  destruct (Ascii.eqb_spec c1 "[") as [->|Hne1];
    [|destruct c1 as [[] [] [] [] [] [] [] []]; try discriminate; contradiction].
  destruct (until "]" s1) as [[a after1]|] eqn:H1; [|discriminate].
  destruct after1 as [|c2 s2]; [discriminate|].
  destruct (Ascii.eqb_spec c2 "(") as [->|Hne2];
    [|destruct c2 as [[] [] [] [] [] [] [] []]; try discriminate; contradiction].
  destruct (until ")" s2) as [[b after2]|] eqn:H2; [|discriminate].
  destruct (String.eqb_spec b "") as [->|Hb]; [discriminate|].
  inversion H; subst.
  apply until_sound in H1 as [-> Halt]. apply until_sound in H2 as [-> Hsrc].
  repeat split; try assumption.
  unfold source. rewrite !append_assoc. reflexivity.
Qed.

Lemma match_image_complete alt src rest :
  has_char "]" alt = false -> has_char ")" src = false -> src <> EmptyString ->
  match_image (source (Image alt src) +:+ rest) = Some (alt, src, rest).
Proof.
  intros Halt Hsrc Hne. unfold source.
  rewrite !append_assoc, !append_cons, !append_nil_l. unfold match_image.
  rewrite (until_complete "]" alt _ Halt), (until_complete ")" src _ Hsrc).
  destruct (String.eqb_spec src ""); [contradiction|reflexivity].
Qed.

Lemma match_image_app s tail alt src rest :
  match_image s = Some (alt, src, rest) ->
  match_image (s +:+ tail) = Some (alt, src, rest +:+ tail).
Proof.
  intros H. apply match_image_sound in H as (-> & Halt & Hsrc & Hne).
  rewrite append_assoc. apply match_image_complete; assumption.
Qed.

Lemma exec_image_sound s : forall before alt src rest,
  exec_image s = Some (before, (alt, src), rest) ->
  s = before +:+ source (Image alt src) +:+ rest
  /\ has_char "]" alt = false /\ has_char ")" src = false /\ src <> EmptyString
  /\ exec_image before = None.
Proof.
  induction s as [|c s IH]; intros before alt src rest H.
  - simpl in H. discriminate.
  - cbn [exec_image] in H.
    destruct (match_image (String c s)) as [[[a b] r]|] eqn:Hm.
    + inversion H; subst. apply match_image_sound in Hm as (Hs & Halt & Hsrc & Hne).
      repeat split; assumption.
    + destruct (exec_image s) as [[[b' [a' s']] r']|] eqn:He; [|discriminate].
      inversion H; subst.
      destruct (IH _ _ _ _ eq_refl) as (Hs & Halt & Hsrc & Hne & Hnone).
      split; [rewrite append_cons, <- Hs; reflexivity|].
      repeat split; try assumption.
      cbn [exec_image]. rewrite Hnone.
      destruct (match_image (String c b')) as [[[a1 b1] r1]|] eqn:Hm'; [|reflexivity].
      apply (match_image_app _ (source (Image alt src) +:+ rest)) in Hm'.
      rewrite append_cons, <- Hs, Hm in Hm'. discriminate.
Qed.

Lemma image_loop_spec fuel : forall rest,
  (String.length rest < fuel)%nat ->
  sources (image_loop fuel rest) = rest
  /\ Forall (fun e => match e with
                      | Span text => text <> EmptyString /\ exec_image text = None
                      | Image alt src =>
                          has_char "]" alt = false /\ has_char ")" src = false
                          /\ src <> EmptyString
                      end) (image_loop fuel rest).
Proof.
  induction fuel as [|fuel IH]; intros rest Hlen; [lia|].
  cbn [image_loop].
  destruct (exec_image rest) as [[[before [alt src]] after]|] eqn:He.
  - apply exec_image_sound in He as (Hs & Halt & Hsrc & Hne & Hnone).
    assert (Hafter : (String.length after < fuel)%nat).
    { rewrite Hs in Hlen. unfold source in Hlen.
      rewrite !length_append in Hlen. simpl in Hlen. lia. }
    destruct (IH after Hafter) as [Hsources Hall].
    destruct (String.eqb_spec before "") as [->|Hb].
    + split.
      * cbn [app sources]. rewrite Hsources, Hs. reflexivity.
      * constructor; [repeat split; assumption|exact Hall].
    + split.
      * cbn [app sources source]. rewrite Hsources, Hs.
        reflexivity.
      * constructor; [split; assumption|].
        constructor; [repeat split; assumption|exact Hall].
  - destruct (String.eqb_spec rest "") as [->|Hr].
    + split; [reflexivity|constructor].
    + split; [cbn [sources source]; apply append_nil_r|].
      constructor; [split; assumption|constructor].
Qed.

(** X16. [renderImagesAndText] loses nothing and finds every image. The
    empty text gives [null]; for any other text the elements, put back
    into markdown, spell the text exactly. Each image has an
    alternative text without a closing bracket and a non-empty source
    without a closing parenthesis; each text span is non-empty and holds
    no complete image syntax. *)
Theorem renderImagesAndText_partitions text :
  match renderImagesAndText text with
  | None => text = EmptyString
  | Some elements =>
      text <> EmptyString
      /\ sources elements = text
      /\ Forall (fun e => match e with
                          | Span t => t <> EmptyString /\ exec_image t = None
                          | Image alt src =>
                              has_char "]" alt = false /\ has_char ")" src = false
                              /\ src <> EmptyString
                          end) elements
  end.
Proof.
  unfold renderImagesAndText.
  destruct (String.eqb_spec text "") as [->|Hne]; [reflexivity|].
  split; [exact Hne|]. apply image_loop_spec. lia.
Qed.

Lemma exec_image_no_bang s :
  has_char "!" s = false -> exec_image s = None.
Proof.
  induction s as [|c s IH]; intros H; [reflexivity|].
  simpl in H. apply orb_false_elim in H as [Hc Hs].
  cbn [exec_image]. rewrite (IH Hs).
  destruct (match_image (String c s)) as [[[a b] r]|] eqn:Hm; [|reflexivity].
  apply match_image_sound in Hm as [Hm _]. unfold source in Hm.
  rewrite !append_assoc, !append_cons in Hm. inversion Hm; subst.
  discriminate Hc.
Qed.

Lemma exec_image_skips before image_text : forall alt src rest,
  has_char "!" before = false ->
  match_image image_text = Some (alt, src, rest) ->
  exec_image (before +:+ image_text) = Some (before, (alt, src), rest).
Proof.
  induction before as [|c before IH]; intros alt src rest Hb Hm.
  - rewrite append_nil_l. destruct image_text as [|c s].
    + discriminate Hm.
    + cbn [exec_image]. rewrite Hm. reflexivity.
  - simpl in Hb. apply orb_false_elim in Hb as [Hc Hb].
    rewrite append_cons.
    cbn [exec_image]. rewrite (IH _ _ _ Hb Hm).
    destruct (match_image (String c (before +:+ image_text))) as [[[a b] r]|] eqn:Hm';
      [|reflexivity].
    apply match_image_sound in Hm' as [Hm' _]. unfold source in Hm'.
    rewrite !append_assoc, !append_cons in Hm'. inversion Hm'; subst.
    discriminate Hc.
Qed.

(** X17. A text that introduces one image is shown as that text and the
    image: for an introduction without an exclamation mark, an
    alternative text without a closing bracket and a non-empty source
    without a closing parenthesis. This is the shape of the result of
    the image capability, ["Imagem gerada com sucesso: ![prompt](url)"]:
    it shows the picture unless the prompt holds a closing bracket or
    the encoded address a closing parenthesis, which URI encoding
    leaves as it is. *)
Theorem one_image_is_shown intro alt src :
  intro <> EmptyString ->
  has_char "!" intro = false ->
  has_char "]" alt = false ->
  has_char ")" src = false ->
  src <> EmptyString ->
  renderImagesAndText (intro +:+ "![" +:+ alt +:+ "](" +:+ src +:+ ")")
  = Some [Span intro; Image alt src].
Proof.
  intros Hintro Hbang Halt Hsrc Hne.
  unfold renderImagesAndText.
  destruct (String.eqb_spec (intro +:+ "![" +:+ alt +:+ "](" +:+ src +:+ ")") "")
    as [Heq|_].
  { destruct intro; [contradiction|]. rewrite append_cons in Heq. discriminate. }
  f_equal. cbn [image_loop].
  pose proof (match_image_complete alt src "" Halt Hsrc Hne) as Hm.
  rewrite append_nil_r in Hm. unfold source in Hm.
  rewrite (exec_image_skips intro _ alt src "" Hbang Hm).
  destruct (String.eqb_spec intro ""); [contradiction|].
  cbn [app]. f_equal. f_equal.
  destruct (String.length _); reflexivity.
Qed.

End ViewProperties.

Section ViewSamples.
Import Scenario.

Lemma one_image_is_shown_witness :
  renderImagesAndText (content cat_picture)
  = Some [Span "Imagem gerada com sucesso: ";
          Image "a cat"
            "https://image.pollinations.ai/prompt/a%20cat?width=1024&height=1024&nologo=true"].
Proof.
  apply (one_image_is_shown "Imagem gerada com sucesso: " "a cat"
           "https://image.pollinations.ai/prompt/a%20cat?width=1024&height=1024&nologo=true");
    first [discriminate | reflexivity].
Defined.

End ViewSamples.

Section ContentProperties.
Local Open Scope char_scope.

Lemma until_fence_step c rest :
  Ascii.eqb c "`" = false ->
  until_fence (String c rest)
  = match until_fence rest with
    | Some (before, after) => Some (String c before, after)
    | None => None
    end.
Proof.
  intros H. destruct c as [[] [] [] [] [] [] [] []]; try discriminate H; reflexivity.
Qed.

Lemma until_fence_none s : has_char "`" s = false -> until_fence s = None.
Proof.
  induction s as [|c s IH]; intros H; [reflexivity|].
  simpl in H. apply orb_false_elim in H as [Hc Hs].
  rewrite (until_fence_step c s Hc), (IH Hs). reflexivity.
Qed.

Lemma until_fence_skip before : forall rest,
  has_char "`" before = false ->
  until_fence (before +:+ "```" +:+ rest) = Some (before, rest).
Proof.
  induction before as [|c before IH]; intros rest H; [reflexivity|].
  simpl in H. apply orb_false_elim in H as [Hc Hb].
  rewrite append_cons, (until_fence_step c _ Hc), (IH rest Hb). reflexivity.
Qed.

Lemma take_word_line word : forall rest,
  all_word word = true ->
  take_word (word +:+ String "010" rest) = (word, String "010" rest).
Proof.
  induction word as [|c word IH]; intros rest H; [reflexivity|].
  simpl in H. apply andb_prop in H as [Hc Hw].
  rewrite append_cons. cbn [take_word]. rewrite Hc, (IH rest Hw). reflexivity.
Qed.

Lemma skip_spaces_word c rest :
  is_word c = true -> skip_spaces (String c rest) = String c rest.
Proof.
  intros H. destruct c as [[] [] [] [] [] [] [] []]; try discriminate H; reflexivity.
Qed.

Lemma inline_parts_empty : inline_parts EmptyString = [].
Proof. reflexivity. Qed.

Lemma fence_loop_match hl fuel rest before word code after :
  exec_fence rest = Some (before, word, code, after) ->
  fence_loop hl (S fuel) rest
  = (if String.eqb before "" then [] else inline_parts before)
    ++ CodeBlock (if String.eqb word "" then "plaintext"%string else word)
         (highlighted_code hl (if String.eqb word "" then "plaintext"%string else word) code)
       :: fence_loop hl fuel after.
Proof. intros H. cbn [fence_loop]. rewrite H. reflexivity. Qed.

Lemma fence_loop_plain hl fuel text :
  has_char "`" text = false ->
  fence_loop hl (S fuel) text = inline_parts text.
Proof.
  intros H. cbn [fence_loop]. unfold exec_fence.
  rewrite (until_fence_none text H).
  destruct (String.eqb_spec text "") as [->|_]; reflexivity.
Qed.

(** X18. A content without a backtick has no code block: whatever the
    highlighter, [renderContent] gives the elements of
    [renderImagesAndText], and the highlighter is not consulted. *)
Theorem content_without_backtick hl content :
  has_backtick content = false ->
  renderContent hl content = map Inline <$> renderImagesAndText content.
Proof.
  intros H. unfold renderContent.
  destruct (String.eqb_spec content "") as [->|Hne]; [reflexivity|].
  rewrite (fence_loop_plain hl _ content H). unfold inline_parts, renderImagesAndText.
  destruct (String.eqb_spec content "") as [Heq|_]; [contradiction|reflexivity].
Qed.

(** X19. A fenced block between two texts without backticks: the opening
    fence, a language word, a line feed, a code that starts with a word
    character and holds no backtick, the closing fence. The content is
    shown as the text before, one code block labelled with the language
    (or "plaintext" when the word is empty) holding the highlighter's
    markup of the code, and the text after. *)
Theorem fenced_block_is_shown hl before word c code after :
  has_backtick before = false ->
  all_word word = true ->
  is_word c = true ->
  has_backtick (String c code) = false ->
  has_backtick after = false ->
  let lang := if String.eqb word "" then "plaintext"%string else word in
  renderContent hl
    (before +:+ "```" +:+ word +:+ String "010" (String c code +:+ "```" +:+ after))
  = Some (inline_parts before
          ++ CodeBlock lang (highlighted_code hl lang (String c code))
          :: inline_parts after).
Proof.
  intros Hbefore Hword Hc Hcode Hafter lang.
  set (content := before +:+ "```" +:+ word +:+ String "010"
                    (String c code +:+ "```" +:+ after)).
  assert (Hexec : exec_fence content = Some (before, word, String c code, after)).
  { unfold exec_fence, content.
    rewrite (until_fence_skip before _ Hbefore), (take_word_line word _ Hword).
    change (skip_spaces (String "010" (String c code +:+ "```" +:+ after)))
      with (skip_spaces (String c code +:+ "```" +:+ after)).
    rewrite append_cons, (skip_spaces_word c _ Hc), <- append_cons.
    rewrite (until_fence_skip (String c code) after Hcode). reflexivity. }
  assert (Hlen : (2 <= String.length content)%nat).
  { unfold content. rewrite !length_append. cbn [String.length]. lia. }
  unfold renderContent.
  destruct (String.eqb_spec content "") as [Heq|_].
  { rewrite Heq in Hlen. cbn [String.length] in Hlen. lia. }
  destruct (String.length content) as [|[|n]]; [lia|lia|]. clear Hlen.
  rewrite (fence_loop_match hl _ _ _ _ _ _ Hexec). fold lang.
  rewrite (fence_loop_plain hl _ after Hafter).
  destruct (String.eqb_spec before "") as [->|_]; reflexivity.
Qed.

End ContentProperties.

Section ContentSamples.

Lemma content_without_backtick_witness :
  renderContent {| getLanguage := fun _ => false;
                   highlight := fun _ _ => inl (Error "unused");
                   highlightAuto := fun code => code |}
    (content Scenario.cat_picture)
  = Some [Inline (Span "Imagem gerada com sucesso: ");
          Inline (Image "a cat"
            "https://image.pollinations.ai/prompt/a%20cat?width=1024&height=1024&nologo=true")].
Proof.
  rewrite content_without_backtick; [|reflexivity].
  vm_compute. reflexivity.
Defined.

Lemma fenced_block_is_shown_witness :
  let hl := {| getLanguage := fun lang => String.eqb lang "js";
               highlight := fun code _ => inr ("<span>" +:+ code +:+ "</span>");
               highlightAuto := fun code => code |} in
  renderContent hl
    ("Try: " +:+ "```" +:+ "js" +:+ String "010"%char ("let x = 1;" +:+ "```" +:+ " Done."))
  = Some [Inline (Span "Try: "); CodeBlock "js" "<span>let x = 1;</span>";
          Inline (Span " Done.")].
Proof.
  intros hl.
  apply (fenced_block_is_shown hl "Try: " "js" "l"%char "et x = 1;" " Done.");
    reflexivity.
Defined.

End ContentSamples.

(** ** What reaches the screen *)

Section ScreenProperties.
Context `{R : Runtime}.

Lemma displayed_app l1 l2 : displayed (l1 ++ l2) = displayed l1 ++ displayed l2.
Proof. unfold displayed. apply filter_app. Qed.

Lemma displayed_tools l :
  Forall (fun m => role m = tool) l -> displayed l = [].
Proof.
  induction 1 as [|m l Hm _ IH]; [reflexivity|].
  unfold displayed. rewrite filter_cons_False; [exact IH|].
  intros [_ Hne]. contradiction.
Qed.

(** X20. Tool results never reach the screen. After a completed tool
    pass, [ChatWindow] shows the bubbles it would show had the log
    received only the user message, the assistant message that asked
    for the tools and the final answer. *)
Theorem tool_results_stay_hidden hl w userInput st key a c cs r1 r2 final toolMsgs :
  rejected userInput st = false ->
  requireApiKey w = inr key ->
  let userMsg := userMessage userInput in
  let mode := conversationMode st in
  let n := length (fetches (trace st)) in
  fetch w n (MistralService.request (messages st ++ [userMsg]) mode key) = inr r1 ->
  MistralService.readResponse r1 = inr a ->
  tool_calls a = Some (c :: cs) ->
  Forall2 (fun call m => executeTool call = inr m) (c :: cs) toolMsgs ->
  fetch w (S n)
    (MistralService.request (messages st ++ [userMsg; a] ++ toolMsgs) mode key) = inr r2 ->
  MistralService.readResponse r2 = inr final ->
  chatWindow hl (messages (handleSendMessage w userInput st))
  = chatWindow hl (messages st ++ [userMsg; a; final]).
Proof.
  intros Hacc Hkey userMsg mode n Hf1 Hr1 Hcalls Htools Hf2 Hr2.
  rewrite (pass_log w userInput st Hacc). fold userMsg mode n.
  assert (Hbatch : pass_batch w (messages st) userMsg mode n = a :: toolMsgs ++ [final]).
  { unfold pass_batch. rewrite Hkey, Hf1. cbn [mbind Exc_bind].
    rewrite Hr1, Hcalls, (runTools_ok _ _ _ _ Htools). cbn [fst snd].
    rewrite <- (app_assoc (messages st) [userMsg; a] toolMsgs), Hf2.
    cbn [mbind Exc_bind]. rewrite Hr2. reflexivity. }
  rewrite Hbatch. unfold chatWindow. f_equal.
  assert (Hhidden : displayed toolMsgs = []).
  { apply displayed_tools.
    assert (Hall : Forall2 (fun (_ : ToolCall) m => role m = tool) (c :: cs) toolMsgs).
    { eapply Forall2_impl; [exact Htools|].
      intros call m Hm. apply executeTool_shape in Hm. tauto. }
    clear -Hall. induction Hall; constructor; assumption. }
  change (userMsg :: a :: toolMsgs ++ [final])
    with ([userMsg; a] ++ toolMsgs ++ [final]).
  change [userMsg; a; final] with ([userMsg; a] ++ [final]).
  rewrite !displayed_app, Hhidden. reflexivity.
Qed.

End ScreenProperties.

Section PromptProperties.

(** X21. The three modes have three different directives: a directive
    determines its mode. *)
Theorem directive_determines_mode mode1 mode2 :
  MistralService.getSystemPrompt mode1 = MistralService.getSystemPrompt mode2 ->
  mode1 = mode2.
Proof.
  intros H. apply (f_equal String.length) in H.
  destruct mode1, mode2; try reflexivity; vm_compute in H; discriminate H.
Qed.

End PromptProperties.

Section ScreenSamples.
Import Scenario.

Lemma tool_results_stay_hidden_witness :
  let hl := {| getLanguage := fun _ => false;
               highlight := fun _ _ => inl (Error "unused");
               highlightAuto := fun code => code |} in
  let w := script [completion (assistantCalls [draw_cat]);
                   completion (assistantSays "Here is your cat.")] in
  map bubble_class (chatWindow hl (messages (handleSendMessage w "draw a cat" fresh)))
  = ["message-bubble user"; "message-bubble sena"; "message-bubble sena"].
Proof.
  intros hl w.
  rewrite (tool_results_stay_hidden hl w "draw a cat" fresh "sk-test"
             (assistantCalls [draw_cat]) draw_cat []
             (completed (assistantCalls [draw_cat]))
             (completed (assistantSays "Here is your cat."))
             (assistantSays "Here is your cat.") [cat_picture]).
  - vm_compute. reflexivity.
  - vm_compute. reflexivity.
  - reflexivity.
  - vm_compute. reflexivity.
  - vm_compute. reflexivity.
  - reflexivity.
  - repeat constructor.
  - vm_compute. reflexivity.
  - vm_compute. reflexivity.
Defined.

Lemma directive_determines_mode_witness :
  Profissional = Profissional.
Proof.
  apply directive_determines_mode. reflexivity.
Defined.

Lemma cleared_chat_returns_from_mirror_witness :
  let st := initialApp {[ history_key := "[]" ]} (Some [row user "still here" 1]) in
  let cleared := handleClearChat true st in
  messages cleared = []
  /\ messages (loadChatHistory (script [])
                 (initialApp (localStorage cleared) (supabase cleared)))
     = [userMessage "still here"].
Proof.
  intros st cleared.
  destruct (cleared_chat_returns_from_mirror (script []) st) as (Hempty & Hmirror & _).
  split; [exact Hempty|].
  apply (Hmirror [row user "still here" 1] (row user "still here" 1) []);
    reflexivity.
Defined.

End ScreenSamples.

(** ** The first version of the component *)

Section LegacyProperties.
Context `{R : Runtime}.

(** X22. In the first version, every accepted input adds exactly two
    messages to the log after exactly one request: the user's, and one
    assistant message that is never empty. That message is the content
    of the first choice of a successful answer, and in every other case
    the same fixed apology, which tells nothing of what went wrong. The
    request carries the mode's system prompt, then the log, then the new
    message. *)
Theorem legacy_pass net userInput st :
  String.eqb (trim userInput) "" || Legacy.busy st = false ->
  let st' := Legacy.handleSendMessage net userInput st in
  let userTurn := {| Legacy.turn_role := user; Legacy.turn_content := userInput |} in
  exists reply call,
    Legacy.log st' = Legacy.log st ++ [userTurn; reply]
    /\ Legacy.turn_role reply = assistant
    /\ Legacy.turn_content reply <> ""
    /\ Legacy.busy st' = false
    /\ Legacy.calls st' = Legacy.calls st ++ [call]
    /\ Legacy.call_messages call
       = {| Legacy.turn_role := system;
            Legacy.turn_content := Legacy.systemPrompts (Legacy.mode st) |}
         :: Legacy.log st ++ [userTurn]
    /\ (reply = Legacy.apology
        \/ exists response data choice others,
             Legacy.send net (length (Legacy.calls st)) call = inr response
             /\ ok response = true
             /\ json response = inr (Some data)
             /\ body_choices data = Some (choice :: others)
             /\ Legacy.turn_content reply = content (choice_message choice)).
Proof.
  intros Hacc st' userTurn. unfold st', Legacy.handleSendMessage. rewrite Hacc.
  fold userTurn.
  set (call := {| Legacy.call_url := _; Legacy.call_authorization := _;
                  Legacy.call_model := _; Legacy.call_messages := _ |}).
  assert (Hmessages : Legacy.call_messages call
            = {| Legacy.turn_role := system;
                 Legacy.turn_content := Legacy.systemPrompts (Legacy.mode st) |}
              :: Legacy.log st ++ [userTurn]).
  { unfold call, Legacy.apiMessages. cbn [Legacy.call_messages].
    generalize ({| Legacy.turn_role := system;
                   Legacy.turn_content := Legacy.systemPrompts (Legacy.mode st) |}
                :: Legacy.log st ++ [userTurn]).
    intros l. induction l as [|t l IH]; [reflexivity|].
    cbn [map]. rewrite IH. destruct t; reflexivity. }
  destruct (Legacy.send net (length (Legacy.calls st)) call) as [e|response] eqn:Hsend.
  { exists Legacy.apology, call. cbn [mbind Exc_bind Legacy.log Legacy.busy Legacy.calls].
    rewrite <- app_assoc. repeat split; try exact Hmessages; [discriminate|left; reflexivity]. }
  cbn [mbind Exc_bind]. unfold Legacy.readAnswer.
  destruct (ok response) eqn:Hok; cbn [negb].
  2:{ exists Legacy.apology, call. cbn [Legacy.log Legacy.busy Legacy.calls].
      rewrite <- app_assoc. repeat split; try exact Hmessages; [discriminate|left; reflexivity]. }
  destruct (json response) as [e|[data|]] eqn:Hjson; cbn [mbind Exc_bind].
  { exists Legacy.apology, call. cbn [Legacy.log Legacy.busy Legacy.calls].
    rewrite <- app_assoc. repeat split; try exact Hmessages; [discriminate|left; reflexivity]. }
  2:{ exists Legacy.apology, call. cbn [Legacy.log Legacy.busy Legacy.calls].
      rewrite <- app_assoc. repeat split; try exact Hmessages; [discriminate|left; reflexivity]. }
  destruct (body_choices data) as [[|choice others]|] eqn:Hchoices.
  - exists Legacy.apology, call. cbn [Legacy.log Legacy.busy Legacy.calls].
    rewrite <- app_assoc. repeat split; try exact Hmessages; [discriminate|left; reflexivity].
  - destruct (String.eqb_spec (content (choice_message choice)) "") as [Hempty|Hfull].
    + exists Legacy.apology, call. cbn [Legacy.log Legacy.busy Legacy.calls].
      rewrite <- app_assoc. repeat split; try exact Hmessages; [discriminate|left; reflexivity].
    + eexists _, call. cbn [Legacy.log Legacy.busy Legacy.calls Legacy.turn_role
                              Legacy.turn_content].
      rewrite <- app_assoc. repeat split; try exact Hmessages; [exact Hfull|].
      right. exists response, data, choice, others. repeat split; assumption.
  - exists Legacy.apology, call. cbn [Legacy.log Legacy.busy Legacy.calls].
    rewrite <- app_assoc. repeat split; try exact Hmessages; [discriminate|left; reflexivity].
Qed.

End LegacyProperties.

Section LegacySamples.

Lemma legacy_pass_witness :
  let net := {| Legacy.key := None;
                Legacy.send := fun _ _ =>
                  inr {| status := 401; statusText := "Unauthorized";
                         json := inl (Error "Unexpected end of JSON input") |} |} in
  let st := {| Legacy.log := []; Legacy.busy := false; Legacy.mode := Explicativo;
               Legacy.calls := [] |} in
  exists reply call,
    Legacy.log (Legacy.handleSendMessage net "oi" st)
    = [ {| Legacy.turn_role := user; Legacy.turn_content := "oi" |}; reply ]
    /\ Legacy.calls (Legacy.handleSendMessage net "oi" st) = [call].
Proof.
  intros net st.
  assert (Hacc : String.eqb (trim "oi") "" || Legacy.busy st = false)
    by (vm_compute; reflexivity).
  destruct (legacy_pass net "oi" st Hacc) as (reply & call & Hlog & _ & _ & _ & Hcalls & _).
  exists reply, call. split; [exact Hlog|exact Hcalls].
Defined.

End LegacySamples.
